(** * Dynamic Pricing Optimizer: cost model, pricing model, segments, storage

    A shallow embedding of the models exercised by the repository's test
    suites (test/storage.test.js holds the storage utilities and the
    CostModel, CustomerSegmentModel and PricingModel classes) together with
    the properties of them that the specification states.

    Conventions of the embedding.
    - A JavaScript number is a [number]: an exact rational, [Infinity],
      [NegInfinity] or [NaN].  Arithmetic on finite values is exact (the
      IEEE-754 rounding of a double is not modelled) and zero is unsigned (a
      division by zero takes the divisor as +0).  The properties of computed
      numbers are therefore stated in forms that rounding does not break:
      as the expression the code evaluates, as an order that rounding
      preserves, or up to [tolerance] for totals of [ordinary_magnitude].
      The examples are evaluated in the exact arithmetic.
    - A JavaScript object used as a dictionary is a finite map on its own
      keys ([gmap string _]) or, where the enumeration order is used, an
      association list.  Where the code reads a name from a plain object,
      the members that the object inherits from [Object.prototype] are
      accounted for: in the definition, as for [STORAGE_KEYS], or by a
      hypothesis on the name.
    - A method that mutates [this] takes the object and returns the new one;
      a method that also returns a value returns a pair.  The [add...]
      methods of CostModel, whose result is the constant [true], return the
      new object only, and their arguments are numbers already (the source
      passes them through [Number]).
    - A PricingModel is given its CostModel by value: the cost model is not
      changed while a pricing model that refers to it is in use. *)

From Stdlib Require Import QArith Qround Qabs Qcanon Lqa Lia Ascii.
From stdpp Require Import base option list gmap strings pretty countable.

(** ** JavaScript numbers *)

Inductive number : Type :=
  | Fin (q : Q)
  | Infinity
  | NegInfinity
  | NaN.

Definition is_finite (x : number) : Prop :=
  match x with Fin _ => True | _ => False end.

(** [Object.is]-style sameness: rationals up to [Qeq], and [NaN] is the same
    value as [NaN]. *)
Definition same (x y : number) : Prop :=
  match x, y with
  | Fin a, Fin b => (a == b)%Q
  | Infinity, Infinity => True
  | NegInfinity, NegInfinity => True
  | NaN, NaN => True
  | _, _ => False
  end.

Global Instance number_equiv : Equiv number := same.

Definition js_neg (x : number) : number :=
  match x with
  | Fin a => Fin (- a)
  | Infinity => NegInfinity
  | NegInfinity => Infinity
  | NaN => NaN
  end.

Definition js_add (x y : number) : number :=
  match x, y with
  | NaN, _ | _, NaN => NaN
  | Fin a, Fin b => Fin (a + b)
  | Infinity, NegInfinity | NegInfinity, Infinity => NaN
  | Infinity, _ | _, Infinity => Infinity
  | NegInfinity, _ | _, NegInfinity => NegInfinity
  end.

Definition js_sub (x y : number) : number :=
  match x, y with
  | NaN, _ | _, NaN => NaN
  | Fin a, Fin b => Fin (a - b)
  | Infinity, Infinity | NegInfinity, NegInfinity => NaN
  | Infinity, _ | _, NegInfinity => Infinity
  | NegInfinity, _ | _, Infinity => NegInfinity
  end.

(** The sign of an infinite product or quotient. *)
Definition signed_infinity (c : comparison) (positive_side : number) : number :=
  match c with
  | Gt => positive_side
  | Lt => js_neg positive_side
  | Eq => NaN
  end.

Definition js_mul (x y : number) : number :=
  match x, y with
  | NaN, _ | _, NaN => NaN
  | Fin a, Fin b => Fin (a * b)
  | Fin a, Infinity | Infinity, Fin a => signed_infinity (a ?= 0)%Q Infinity
  | Fin a, NegInfinity | NegInfinity, Fin a => signed_infinity (a ?= 0)%Q NegInfinity
  | Infinity, Infinity | NegInfinity, NegInfinity => Infinity
  | Infinity, NegInfinity | NegInfinity, Infinity => NegInfinity
  end.

Definition js_div (x y : number) : number :=
  match x, y with
  | NaN, _ | _, NaN => NaN
  | Fin a, Fin b =>
      if Qeq_bool b 0 then signed_infinity (a ?= 0)%Q Infinity
      else Fin (a / b)
  | Fin _, (Infinity | NegInfinity) => Fin 0
  | Infinity, Fin b => if Qle_bool 0 b then Infinity else NegInfinity
  | NegInfinity, Fin b => if Qle_bool 0 b then NegInfinity else Infinity
  | (Infinity | NegInfinity), (Infinity | NegInfinity) => NaN
  end.

(** [x <= y] and [x < y]; any comparison with [NaN] is false. *)
Definition js_le (x y : number) : bool :=
  match x, y with
  | NaN, _ | _, NaN => false
  | Fin a, Fin b => Qle_bool a b
  | NegInfinity, _ | _, Infinity => true
  | _, _ => false
  end.

Definition js_lt (x y : number) : bool :=
  match x, y with
  | NaN, _ | _, NaN => false
  | Fin a, Fin b => negb (Qle_bool b a)
  | Infinity, _ | _, NegInfinity => false
  | _, _ => true
  end.

(** [Math.max(x, y)]: [NaN] when either argument is. *)
Definition Math_max (x y : number) : number :=
  match x, y with
  | NaN, _ | _, NaN => NaN
  | _, _ => if js_le x y then y else x
  end.

(** [Math.round(x)]: the nearest integer, a tie going up. *)
Definition Math_round (x : number) : number :=
  match x with
  | Fin a => Fin (inject_Z (Qfloor (a + 0.5)))
  | _ => x
  end.

(** The number of elements of an array, as a number. *)
Definition js_length {A} (l : list A) : number :=
  Fin (inject_Z (Z.of_nat (length l))).

(** [array.reduce((acc, x) => acc + f(x), 0)]. *)
Definition reduce_sum {A} (f : A → number) (l : list A) : number :=
  foldl (λ acc x, js_add acc (f x)) (Fin 0) l.

(** [x.toFixed(0)] for |x| below 1e21: the sign, then the nearest integer to
    the magnitude, a tie going up. *)
Definition toFixed0 (x : number) : string :=
  match x with
  | Fin a =>
      let digits := pretty (Z.to_N (Qfloor (Qabs a + 0.5))) in
      if Qle_bool 0 a then digits else "-" +:+ digits
  | Infinity => "Infinity"
  | NegInfinity => "-Infinity"
  | NaN => "NaN"
  end.

(** A string between double quotes. *)
Definition quoted (s : string) : string :=
  String (Ascii.ascii_of_nat 34) (s +:+ String (Ascii.ascii_of_nat 34) EmptyString).

(** ** Rounding

    The arithmetic of the embedding is exact; the code computes with doubles.
    Where a statement compares a computed quotient with a number given by a
    formula, it is stated up to [tolerance], 2^-40, and for totals of
    [ordinary_magnitude], between 2^-900 and 2^900 in absolute value: there
    the prices and margins computed from them neither overflow nor underflow,
    and the handful of roundings involved stay well inside the tolerance. *)

Definition tolerance : Q := 1 # 2 ^ 40.

Definition ordinary_magnitude (c : Q) : Prop :=
  (1 # 2 ^ 900 <= Qabs c)%Q ∧ (Qabs c <= inject_Z (2 ^ 900))%Q.

(** ** CostModel *)

Module CostModel.

Record DirectCost := {
  dc_name : string;
  dc_amount : number;
  dc_unit : string }.

Record IndirectCost := {
  ic_name : string;
  ic_amount : number;
  ic_period : string }.

Record TimeCost := {
  tc_name : string;
  tc_rate : number;
  tc_hours : number }.

Record t := {
  businessType : string;
  directCosts : list DirectCost;
  indirectCosts : list IndirectCost;
  timeCosts : list TimeCost;
  targetMargin : number;
  expectedVolume : number }.

(** [new CostModel(businessType)] *)
Definition new (businessType : string) : t :=
  {| businessType := businessType;
     directCosts := [];
     indirectCosts := [];
     timeCosts := [];
     targetMargin := Fin 0.30;
     expectedVolume := Fin 100 |}.

Definition addDirectCost (name : string) (amount : number) (unit : string)
    (this : t) : t :=
  {| businessType := businessType this;
     directCosts := directCosts this ++
       [{| dc_name := name; dc_amount := amount; dc_unit := unit |}];
     indirectCosts := indirectCosts this;
     timeCosts := timeCosts this;
     targetMargin := targetMargin this;
     expectedVolume := expectedVolume this |}.

Definition addIndirectCost (name : string) (amount : number) (period : string)
    (this : t) : t :=
  {| businessType := businessType this;
     directCosts := directCosts this;
     indirectCosts := indirectCosts this ++
       [{| ic_name := name; ic_amount := amount; ic_period := period |}];
     timeCosts := timeCosts this;
     targetMargin := targetMargin this;
     expectedVolume := expectedVolume this |}.

Definition addTimeCost (name : string) (rate hours : number) (this : t) : t :=
  {| businessType := businessType this;
     directCosts := directCosts this;
     indirectCosts := indirectCosts this;
     timeCosts := timeCosts this ++
       [{| tc_name := name; tc_rate := rate; tc_hours := hours |}];
     targetMargin := targetMargin this;
     expectedVolume := expectedVolume this |}.

Definition setTargetMargin (margin : number) (this : t) : t :=
  {| businessType := businessType this;
     directCosts := directCosts this;
     indirectCosts := indirectCosts this;
     timeCosts := timeCosts this;
     targetMargin := margin;
     expectedVolume := expectedVolume this |}.

Definition setExpectedVolume (volume : number) (this : t) : t :=
  {| businessType := businessType this;
     directCosts := directCosts this;
     indirectCosts := indirectCosts this;
     timeCosts := timeCosts this;
     targetMargin := targetMargin this;
     expectedVolume := volume |}.

Definition calculateTotalDirectCost (this : t) : number :=
  reduce_sum dc_amount (directCosts this).

Definition calculateTotalTimeCost (this : t) : number :=
  reduce_sum (λ cost, js_mul (tc_rate cost) (tc_hours cost)) (timeCosts this).

(** [cost.period === 'year' ? cost.amount / 12 : cost.amount] *)
Definition monthlyCost (cost : IndirectCost) : number :=
  if decide (ic_period cost = "year")
  then js_div (ic_amount cost) (Fin 12)
  else ic_amount cost.

(** The local [monthlyIndirectCosts], the same reduce in
    [calculateAllocatedIndirectCost] and in [calculateBreakEvenVolume]. *)
Definition monthlyIndirectCosts (this : t) : number :=
  reduce_sum monthlyCost (indirectCosts this).

Definition calculateAllocatedIndirectCost (this : t) : number :=
  js_div (monthlyIndirectCosts this) (expectedVolume this).

Definition calculateTotalCostPerUnit (this : t) : number :=
  let directCost := calculateTotalDirectCost this in
  let timeCost := calculateTotalTimeCost this in
  let indirectCost := calculateAllocatedIndirectCost this in
  js_add (js_add directCost timeCost) indirectCost.

Definition calculateMinimumViablePrice (this : t) : number :=
  let totalCost := calculateTotalCostPerUnit this in
  js_div totalCost (js_sub (Fin 1) (targetMargin this)).

Definition calculateBreakEvenPrice (this : t) : number :=
  calculateTotalCostPerUnit this.

Definition calculateBreakEvenVolume (price : number) (this : t) : number :=
  let totalCost := calculateTotalCostPerUnit this in
  if js_le price totalCost then Infinity
  else
    let contributionMargin :=
      js_sub price
        (js_add (calculateTotalDirectCost this) (calculateTotalTimeCost this)) in
    js_div (monthlyIndirectCosts this) contributionMargin.

Definition calculateMarginAtPrice (price : number) (this : t) : number :=
  let totalCost := calculateTotalCostPerUnit this in
  js_div (js_sub price totalCost) price.

(** Every amount, rate and number of hours entered is a finite number. *)
Definition finite_costs (this : t) : Prop :=
  Forall (λ cost, is_finite (dc_amount cost)) (directCosts this) ∧
  Forall (λ cost, is_finite (ic_amount cost)) (indirectCosts this) ∧
  Forall (λ cost, is_finite (tc_rate cost) ∧ is_finite (tc_hours cost))
         (timeCosts this).

End CostModel.

(** ** CustomerSegmentModel *)

Module CustomerSegmentModel.

Record Segment := {
  seg_id : string;
  seg_name : string;
  seg_size : number;
  seg_priceElasticity : number;
  seg_description : string }.

(** The partial object handed to [updateSegment]: the fields it carries. *)
Record SegmentData := {
  sd_id : option string;
  sd_name : option string;
  sd_size : option number;
  sd_priceElasticity : option number;
  sd_description : option string }.

Record t := {
  segments : list Segment;
  nextId : nat }.

Definition new : t := {| segments := []; nextId := 1 |}.

Definition addSegment (name : string) (size elasticity : number)
    (description : string) (this : t) : string * t :=
  let id := "seg_" +:+ pretty (nextId this) in
  (id,
   {| segments := segments this ++
        [{| seg_id := id;
            seg_name := name;
            seg_size := size;
            seg_priceElasticity := elasticity;
            seg_description := description |}];
      nextId := S (nextId this) |}).

(** [{ ...segment, ...segmentData }] *)
Definition spread (s : Segment) (d : SegmentData) : Segment :=
  {| seg_id := default (seg_id s) (sd_id d);
     seg_name := default (seg_name s) (sd_name d);
     seg_size := default (seg_size s) (sd_size d);
     seg_priceElasticity := default (seg_priceElasticity s) (sd_priceElasticity d);
     seg_description := default (seg_description s) (sd_description d) |}.

Definition findIndex (id : string) (this : t) : option (nat * Segment) :=
  list_find (λ s, seg_id s = id) (segments this).

Definition updateSegment (id : string) (segmentData : SegmentData)
    (this : t) : bool * t :=
  match findIndex id this with
  | Some (index, s) =>
      (true,
       {| segments := <[index := spread s segmentData]> (segments this);
          nextId := nextId this |})
  | None => (false, this)
  end.

Definition removeSegment (id : string) (this : t) : bool * t :=
  match findIndex id this with
  | Some (index, _) =>
      (true,
       {| segments := delete index (segments this); nextId := nextId this |})
  | None => (false, this)
  end.

Definition calculateWeightedElasticity (this : t) : number :=
  match segments this with
  | [] => Fin (-0.5)
  | _ =>
      let totalSize := reduce_sum seg_size (segments this) in
      let weightedSum :=
        reduce_sum (λ seg, js_mul (seg_priceElasticity seg) (seg_size seg))
          (segments this) in
      js_div weightedSum totalSize
  end.

End CustomerSegmentModel.

(** ** PricingModel *)

Module PricingModel.

Inductive MarketPosition := budget | mid_market | premium.

Definition position_name (p : MarketPosition) : string :=
  match p with
  | budget => "budget"
  | mid_market => "mid-market"
  | premium => "premium"
  end.

(** Membership in [['budget', 'mid-market', 'premium']]. *)
Definition accepted_position (position : string) : option MarketPosition :=
  if decide (position = "budget") then Some budget
  else if decide (position = "mid-market") then Some mid_market
  else if decide (position = "premium") then Some premium
  else None.

Record Competitor := {
  cp_name : string;
  cp_price : number;
  cp_attributes : list (string * number);
  cp_overallValue : number }.

Record ValueFactor := {
  vf_name : string;
  vf_importance : number;
  vf_score : number }.

Record t := {
  costModel : CostModel.t;
  competitors : list Competitor;
  valueFactors : list ValueFactor;
  customerSegmentModel : CustomerSegmentModel.t;
  marketPosition : MarketPosition;
  baseDemand : number }.

Record Recommendation := {
  price : number;
  explanation : string;
  confidenceLevel : number;
  margin : number;
  breakEvenVolume : number }.

(** How a call ends: by returning, or by throwing an [Error]. *)
Inductive outcome := Returned | Thrown (message : string).

Definition new (costModel : CostModel.t) : t :=
  {| costModel := costModel;
     competitors := [];
     valueFactors := [];
     customerSegmentModel := CustomerSegmentModel.new;
     marketPosition := mid_market;
     baseDemand := Fin 100 |}.

Definition segments (this : t) : list CustomerSegmentModel.Segment :=
  CustomerSegmentModel.segments (customerSegmentModel this).

Definition calculateOverallValue (attributes : list (string * number)) : number :=
  match attributes with
  | [] => Fin 5
  | _ => js_div (reduce_sum snd attributes) (js_length attributes)
  end.

Definition addCompetitor (name : string) (price : number)
    (attributes : list (string * number)) (this : t) : t :=
  {| costModel := costModel this;
     competitors := competitors this ++
       [{| cp_name := name;
           cp_price := price;
           cp_attributes := attributes;
           cp_overallValue := calculateOverallValue attributes |}];
     valueFactors := valueFactors this;
     customerSegmentModel := customerSegmentModel this;
     marketPosition := marketPosition this;
     baseDemand := baseDemand this |}.

Definition addValueFactor (name : string) (importance score : number)
    (this : t) : t :=
  {| costModel := costModel this;
     competitors := competitors this;
     valueFactors := valueFactors this ++
       [{| vf_name := name; vf_importance := importance; vf_score := score |}];
     customerSegmentModel := customerSegmentModel this;
     marketPosition := marketPosition this;
     baseDemand := baseDemand this |}.

(** The conversion in [addSegment] from the 1-10 scale. *)
Definition elasticity_of_scale (priceElasticity : number) : number :=
  js_neg (js_add (js_mul (js_div priceElasticity (Fin 10)) (Fin 9.5)) (Fin 0.5)).

Definition addSegment (name : string) (size priceElasticity : number)
    (description : string) (this : t) : string * t :=
  let elasticity := elasticity_of_scale priceElasticity in
  let '(id, model) :=
    CustomerSegmentModel.addSegment name size elasticity description
      (customerSegmentModel this) in
  (id,
   {| costModel := costModel this;
      competitors := competitors this;
      valueFactors := valueFactors this;
      customerSegmentModel := model;
      marketPosition := marketPosition this;
      baseDemand := baseDemand this |}).

Definition setMarketPosition (position : string) (this : t) : outcome * t :=
  match accepted_position position with
  | Some p =>
      (Returned,
       {| costModel := costModel this;
          competitors := competitors this;
          valueFactors := valueFactors this;
          customerSegmentModel := customerSegmentModel this;
          marketPosition := p;
          baseDemand := baseDemand this |})
  | None =>
      (Thrown
         ("Market position must be " +:+ quoted "budget" +:+ ", " +:+
          quoted "mid-market" +:+ ", or " +:+ quoted "premium"),
       this)
  end.

(** The table [positionMultipliers] of [calculateCostPlusPrice]. *)
Definition costPlus_positionMultipliers (p : MarketPosition) : number :=
  match p with
  | budget => Fin 0.9
  | mid_market => Fin 1.0
  | premium => Fin 1.2
  end.

Definition calculateCostPlusPrice (marginMultiplier : number) (this : t) : number :=
  let baseMinimumPrice := CostModel.calculateMinimumViablePrice (costModel this) in
  js_mul
    (js_mul baseMinimumPrice (costPlus_positionMultipliers (marketPosition this)))
    marginMultiplier.

(** The table [positionMultipliers] of [calculateCompetitorIndexedPrice]. *)
Definition competitor_positionMultipliers (p : MarketPosition) : number :=
  match p with
  | budget => Fin 0.85
  | mid_market => Fin 1.0
  | premium => Fin 1.25
  end.

Definition calculateCompetitorIndexedPrice (this : t) : number :=
  match competitors this with
  | [] => calculateCostPlusPrice (Fin 1) this
  | _ =>
      let avgCompetitorPrice :=
        js_div (reduce_sum cp_price (competitors this))
               (js_length (competitors this)) in
      let basePrice :=
        js_mul avgCompetitorPrice
               (competitor_positionMultipliers (marketPosition this)) in
      let minimumViablePrice :=
        CostModel.calculateMinimumViablePrice (costModel this) in
      Math_max basePrice minimumViablePrice
  end.

(** The table [positionMultipliers] of [calculateValueBasedPrice]. *)
Definition value_positionMultipliers (p : MarketPosition) : number :=
  match p with
  | budget => Fin 0.9
  | mid_market => Fin 1.0
  | premium => Fin 1.15
  end.

Definition calculateValueBasedPrice (this : t) : number :=
  match competitors this, valueFactors this with
  | [], _ | _, [] => calculateCostPlusPrice (Fin 1) this
  | _, _ =>
      let valueScore :=
        js_div
          (reduce_sum (λ factor, js_mul (vf_importance factor) (vf_score factor))
             (valueFactors this))
          (reduce_sum vf_importance (valueFactors this)) in
      let avgCompetitorPrice :=
        js_div (reduce_sum cp_price (competitors this))
               (js_length (competitors this)) in
      let avgCompetitorValue :=
        js_div (reduce_sum cp_overallValue (competitors this))
               (js_length (competitors this)) in
      let marketValueToPrice := js_div avgCompetitorValue avgCompetitorPrice in
      let valueBasedPrice := js_div valueScore marketValueToPrice in
      let valueBasedPrice :=
        js_mul valueBasedPrice (value_positionMultipliers (marketPosition this)) in
      let minimumViablePrice :=
        CostModel.calculateMinimumViablePrice (costModel this) in
      Math_max valueBasedPrice minimumViablePrice
  end.

(** The [switch] of [getPriceRecommendation]: the locals [price],
    [explanation] and [confidenceLevel] that it assigns. *)
Definition strategy_case (strategy : string) (this : t)
    : number * string * number :=
  if decide (strategy = "cost-plus") then
    (calculateCostPlusPrice (Fin 1) this,
     "Based on your cost structure and desired " +:+
     position_name (marketPosition this) +:+
     " positioning, this price ensures your target margin of " +:+
     toFixed0 (js_mul (CostModel.targetMargin (costModel this)) (Fin 100)) +:+
     "%.",
     Fin 0.8)
  else if decide (strategy = "competitor") then
    (calculateCompetitorIndexedPrice this,
     "This price positions your offering in the " +:+
     position_name (marketPosition this) +:+
     " segment relative to your competitors while ensuring profitability.",
     if decide (2 < length (competitors this))%nat then Fin 0.7 else Fin 0.5)
  else if decide (strategy = "value") then
    (calculateValueBasedPrice this,
     "Based on your superior value offering, this price reflects the premium value you provide while maintaining competitive positioning.",
     if decide (0 < length (competitors this) ∧ 2 < length (valueFactors this))%nat
     then Fin 0.75 else Fin 0.4)
  else
    (js_add
       (js_add
          (js_mul (calculateCostPlusPrice (Fin 1) this) (Fin 0.4))
          (js_mul (calculateCompetitorIndexedPrice this) (Fin 0.3)))
       (js_mul (calculateValueBasedPrice this) (Fin 0.3)),
     "This optimal price balances your cost structure, competitive positioning, and value differentiation to maximize long-term profitability.",
     Fin 0.65).

(** [Math.round(price * 100) / 100] *)
Definition round_to_cents (price : number) : number :=
  js_div (Math_round (js_mul price (Fin 100))) (Fin 100).

Definition getPriceRecommendation (strategy : string) (this : t) : Recommendation :=
  let '(price, explanation, confidenceLevel) := strategy_case strategy this in
  {| price := round_to_cents price;
     explanation := explanation;
     confidenceLevel := confidenceLevel;
     margin := CostModel.calculateMarginAtPrice price (costModel this);
     breakEvenVolume := CostModel.calculateBreakEvenVolume price (costModel this) |}.

Definition getAllPriceRecommendations (this : t) : list (string * Recommendation) :=
  [("cost-plus", getPriceRecommendation "cost-plus" this);
   ("competitor", getPriceRecommendation "competitor" this);
   ("value", getPriceRecommendation "value" this);
   ("optimal", getPriceRecommendation "optimal" this)].

End PricingModel.

(** ** The objects built by the test suite

    [runTests] of the model tests builds a cost model (Test 1) and a pricing
    model on it with two competitors and three value factors (Tests 3, 4). *)

Definition test_costModel : CostModel.t :=
  CostModel.setExpectedVolume (Fin 20)
    (CostModel.setTargetMargin (Fin 0.30)
       (CostModel.addTimeCost "Developer" (Fin 75) (Fin 8)
          (CostModel.addIndirectCost "Office Space" (Fin 2000) "month"
             (CostModel.addDirectCost "Materials" (Fin 50) "unit"
                (CostModel.new "service"))))).

Definition test_pricingModel : PricingModel.t :=
  PricingModel.addValueFactor "Features" (Fin 7) (Fin 7)
    (PricingModel.addValueFactor "Support" (Fin 6) (Fin 8)
       (PricingModel.addValueFactor "Quality" (Fin 8) (Fin 9)
          (PricingModel.addCompetitor "Competitor B" (Fin 1200) []
             (PricingModel.addCompetitor "Competitor A" (Fin 1000) []
                (PricingModel.new test_costModel))))).

(** ** JSON values and the runtime's [JSON] object *)

#[local] Unset Elimination Schemes.
Inductive json : Type :=
  | JNull
  | JBool (b : bool)
  | JNumber (x : Qcanon.Qc)
  | JString (s : string)
  | JArray (elements : list json)
  | JObject (members : list (string * json)).
#[local] Set Elimination Schemes.

(** Induction on a JSON value, with the hypothesis for every element of an
    array and every member of an object. *)
Definition json_ind (P : json → Prop)
    (Hnull : P JNull)
    (Hbool : ∀ b, P (JBool b))
    (Hnumber : ∀ x, P (JNumber x))
    (Hstring : ∀ s, P (JString s))
    (Harray : ∀ elements, Forall P elements → P (JArray elements))
    (Hobject : ∀ members, Forall (λ member, P (snd member)) members →
                          P (JObject members))
    : ∀ v, P v :=
  fix go (v : json) : P v :=
    match v with
    | JNull => Hnull
    | JBool b => Hbool b
    | JNumber x => Hnumber x
    | JString s => Hstring s
    | JArray elements =>
        Harray elements
          ((fix all (l : list json) : Forall P l :=
              match l with
              | [] => Forall_nil P
              | x :: l' => Forall_cons P x l' (go x) (all l')
              end) elements)
    | JObject members =>
        Hobject members
          ((fix all (l : list (string * json)) : Forall (λ member, P (snd member)) l :=
              match l with
              | [] => Forall_nil _
              | member :: l' =>
                  Forall_cons (λ member, P (snd member)) member l'
                    (let '(_, x) as m := member return P (snd m) in go x) (all l')
              end) members)
    end.

(** A value of the runtime: no object has the same property twice. *)
Fixpoint json_wf (v : json) : bool :=
  match v with
  | JArray elements => forallb json_wf elements
  | JObject members =>
      bool_decide (NoDup members.*1) &&
      forallb (λ member, let '(_, x) := member in json_wf x) members
  | _ => true
  end.

(** [data !== null] *)
Definition not_null (v : json) : bool :=
  match v with JNull => false | _ => true end.

(** [Object.entries(v)]: the own enumerable properties; [None] when the call
    throws a TypeError, which it does on [null]. *)
Definition Object_entries (v : json) : option (list (string * json)) :=
  match v with
  | JNull => None
  | JBool _ | JNumber _ => Some []
  | JString s =>
      Some (imap (λ i c, (pretty i, JString (String c EmptyString)))
                 (String.list_ascii_of_string s))
  | JArray elements => Some (imap (λ i x, (pretty i, x)) elements)
  | JObject members => Some members
  end.

(** [JSON.parse] and [JSON.stringify] belong to the runtime.  The storage
    utilities rely on these laws only: a value written by [stringify], at any
    indentation, is read back by [parse]; [parse] yields values of the runtime;
    the empty string is not a JSON text.  [parse] is [None] where
    [JSON.parse] throws a SyntaxError. *)
Class JSON := {
  JSON_parse : string → option json;
  JSON_stringify : nat → json → string;
  JSON_parse_stringify indent v :
    json_wf v = true → JSON_parse (JSON_stringify indent v) = Some v;
  JSON_parse_wf s v : JSON_parse s = Some v → json_wf v = true;
  JSON_parse_empty : JSON_parse "" = None }.

(** ** The names of [Object.prototype]

    A plain object inherits the members of [Object.prototype]: reading one of
    these names from an object that has no own property of that name yields
    the inherited member, and assigning to [__proto__] replaces the
    prototype. *)
Definition Object_prototype : list string :=
  ["constructor"; "__defineGetter__"; "__defineSetter__"; "hasOwnProperty";
   "__lookupGetter__"; "__lookupSetter__"; "isPrototypeOf";
   "propertyIsEnumerable"; "toString"; "valueOf"; "__proto__";
   "toLocaleString"].

(** ** Storage utilities *)

Module Storage.

(** The own properties of [STORAGE_KEYS], in the order of the literal. *)
Definition STORAGE_KEYS : list (string * string) :=
  [("COST_ANALYSIS", "dpo_cost_analysis");
   ("PRICING_STRATEGY", "dpo_pricing_strategy");
   ("BUSINESS_PROFILE", "dpo_business_profile");
   ("COMPETITORS", "dpo_competitors");
   ("VALUE_FACTORS", "dpo_value_factors");
   ("VALUE_PROPOSITION", "dpo_value_proposition");
   ("VALUE_MAP", "dpo_value_map");
   ("COMMUNICATION", "dpo_communication");
   ("SETTINGS", "dpo_settings");
   ("SCENARIOS", "dpo_scenarios")].

(** The member that [STORAGE_KEYS] inherits under [key], as the property key
    that [setItem] makes of it: [__proto__] reads as [Object.prototype]
    itself, an object, and every other name as a native function, which V8
    prints with its name.  All of them are truthy. *)
Definition inherited_slot (key : string) : option string :=
  if decide (key = "__proto__") then Some "[object Object]"
  else if decide (key = "constructor")
  then Some "function Object() { [native code] }"
  else if decide (key ∈ Object_prototype)
  then Some ("function " +:+ key +:+ "() { [native code] }")
  else None.

(** [STORAGE_KEYS[key]], as the storage key it is used as: an own member of
    the literal, or else an inherited one. *)
Definition STORAGE_KEYS_get (key : string) : option string :=
  match (list_to_map STORAGE_KEYS : gmap string string) !! key with
  | Some storageKey => Some storageKey
  | None => inherited_slot key
  end.

(** The truthiness of a property read: [undefined] and [''] are falsy. *)
Definition truthy (value : option string) : bool :=
  match value with
  | Some (String _ _) => true
  | _ => false
  end.

(** *** MockLocalStorage: [this.store] *)

(** [this.store[key] || null] *)
Definition getItem (key : string) (store : gmap string string) : option string :=
  match store !! key with
  | Some (String c s) => Some (String c s)
  | _ => None
  end.

Definition setItem (key value : string) (store : gmap string string)
    : gmap string string :=
  <[key := value]> store.

Definition removeItem (key : string) (store : gmap string string)
    : gmap string string :=
  delete key store.

Section utilities.
Context `{JSON}.

(** Neither [JSON.stringify] on a JSON value nor [setItem] of the mock
    throws, so the [catch] branch is not taken. *)
Definition saveToStorage (key : string) (data : json)
    (store : gmap string string) : bool * gmap string string :=
  let serializedData := JSON_stringify 0 data in
  (true, setItem key serializedData store).

Definition loadFromStorage (key : string) (defaultValue : json)
    (store : gmap string string) : json :=
  match getItem key store with
  | None => defaultValue
  | Some serializedData =>
      match JSON_parse serializedData with
      | Some data => data
      | None => defaultValue
      end
  end.

Definition removeFromStorage (key : string) (store : gmap string string)
    : bool * gmap string string :=
  (true, removeItem key store).

Definition clearAppStorage (store : gmap string string)
    : bool * gmap string string :=
  (true, foldl (λ st key, removeItem key st) store STORAGE_KEYS.*2).

(** The object [exportData] built by the [forEach]. *)
Definition exportData (store : gmap string string) : json :=
  JObject
    ((λ entry, let '(key, storageKey) := entry in
               (key, loadFromStorage storageKey JNull store)) <$> STORAGE_KEYS).

Definition exportAllData (store : gmap string string) : string :=
  JSON_stringify 2 (exportData store).

(** The body of the [forEach] callback of [importAllData]. *)
Definition import_entry (store : gmap string string) (entry : string * json)
    : gmap string string :=
  let '(key, data) := entry in
  let storageKey := STORAGE_KEYS_get key in
  if truthy storageKey && not_null data then
    match storageKey with
    | Some storageKey => snd (saveToStorage storageKey data store)
    | None => store
    end
  else store.

Definition importAllData (jsonData : string) (store : gmap string string)
    : bool * gmap string string :=
  match JSON_parse jsonData with
  | None => (false, store)
  | Some importData =>
      match Object_entries importData with
      | None => (false, store)
      | Some entries => (true, foldl import_entry store entries)
      end
  end.

End utilities.

End Storage.

(** ** A reference codec

    A self-delimiting encoding of JSON values.  It is not the syntax of
    JSON; it is an inhabitant of [JSON], so that the laws assumed of the
    runtime are known to be jointly satisfiable, and it lets the storage
    utilities run on concrete stores. *)

Module ReferenceCodec.

Definition leaf : Type := bool + Qcanon.Qc + string.

Fixpoint to_tree (v : json) : gen_tree leaf :=
  match v with
  | JNull => GenNode 0 []
  | JBool b => GenLeaf (inl (inl b))
  | JNumber x => GenLeaf (inl (inr x))
  | JString s => GenLeaf (inr s)
  | JArray elements => GenNode 1 (to_tree <$> elements)
  | JObject members =>
      GenNode 2
        ((λ member, let '(key, x) := member in
                    GenNode 3 [GenLeaf (inr key); to_tree x]) <$> members)
  end.

Fixpoint of_tree (t : gen_tree leaf) : option json :=
  match t with
  | GenNode 0 [] => Some JNull
  | GenLeaf (inl (inl b)) => Some (JBool b)
  | GenLeaf (inl (inr x)) => Some (JNumber x)
  | GenLeaf (inr s) => Some (JString s)
  | GenNode 1 ts => JArray <$> mapM of_tree ts
  | GenNode 2 ts =>
      JObject <$>
        mapM (λ t, match t with
                   | GenNode 3 [GenLeaf (inr key); x] => pair key <$> of_tree x
                   | _ => None
                   end) ts
  | _ => None
  end.

Fixpoint digits (p : positive) : string :=
  match p with
  | xH => ""
  | xO p => String "0"%char (digits p)
  | xI p => String "1"%char (digits p)
  end.

Fixpoint of_digits (s : string) : option positive :=
  match s with
  | EmptyString => Some xH
  | String c s =>
      if decide (c = "0"%char) then xO <$> of_digits s
      else if decide (c = "1"%char) then xI <$> of_digits s
      else None
  end.

Definition stringify (indent : nat) (v : json) : string :=
  String "J"%char (digits (encode (to_tree v))).

Definition parse (s : string) : option json :=
  match s with
  | String c s =>
      if decide (c = "J"%char) then
        p ← of_digits s;
        t ← decode p;
        v ← of_tree t;
        if json_wf v then Some v else None
      else None
  | EmptyString => None
  end.

End ReferenceCodec.

(** ** Segment identifiers

    The identifiers in use are distinct and were all issued by the counter:
    each is [seg_k] for some [k] below [nextId]. *)
Definition well_numbered (this : CustomerSegmentModel.t) : Prop :=
  NoDup (CustomerSegmentModel.seg_id <$> CustomerSegmentModel.segments this) ∧
  Forall (λ seg, ∃ k : nat,
            (k < CustomerSegmentModel.nextId this)%nat ∧
            CustomerSegmentModel.seg_id seg = "seg_" +:+ pretty k)
         (CustomerSegmentModel.segments this).

(** ** Property access on JSON values

    Reading, assigning and deleting [value[name]] on a value that came from
    [JSON.parse], as the scenario code does with [scenarios[name]]: own
    properties only.  The storage functions are plain functions of a script,
    so they run in sloppy mode: assigning to, or deleting, a property of a
    number, a boolean or a string is silently ignored. *)

Definition digit_value (c : ascii) : option N :=
  let n := N_of_ascii c in
  if decide (48 ≤ n ∧ n ≤ 57)%N then Some (n - 48)%N else None.

Fixpoint numeral_value (acc : N) (s : string) : option N :=
  match s with
  | EmptyString => Some acc
  | String c s => d ← digit_value c; numeral_value (acc * 10 + d)%N s
  end.

(** The array index that a property name denotes: the name is the canonical
    decimal numeral of an integer below 2^32 - 1. *)
Definition array_index (name : string) : option nat :=
  n ← numeral_value 0 name;
  if decide (pretty n = name ∧ (n < 4294967295)%N) then Some (N.to_nat n) else None.

(** Truthiness: [null], [false], [0] and [''] are falsy. *)
Definition truthy_value (v : json) : bool :=
  match v with
  | JNull => false
  | JBool b => b
  | JNumber x => if decide (x = 0%Qc) then false else true
  | JString s => if decide (s = "") then false else true
  | JArray _ | JObject _ => true
  end.

(** Truthiness of the result of a read, where [None] is [undefined]. *)
Definition is_truthy (value : option json) : bool :=
  match value with
  | Some v => truthy_value v
  | None => false
  end.

(** [value || null] *)
Definition or_null (value : option json) : json :=
  if is_truthy value then default JNull value else JNull.

Fixpoint get_member (name : string) (members : list (string * json)) : option json :=
  match members with
  | [] => None
  | (key, x) :: rest => if decide (key = name) then Some x else get_member name rest
  end.

Fixpoint replace_member (name : string) (x : json) (members : list (string * json))
    : list (string * json) :=
  match members with
  | [] => []
  | (key, y) :: rest =>
      if decide (key = name) then (key, x) :: rest
      else (key, y) :: replace_member name x rest
  end.

(** A new property whose name is an array index is enumerated with the other
    indices, in ascending order, before the names that are not indices. *)
Fixpoint insert_index (i : nat) (name : string) (x : json)
    (members : list (string * json)) : list (string * json) :=
  match members with
  | [] => [(name, x)]
  | (key, y) :: rest =>
      match array_index key with
      | Some j =>
          if decide (j < i) then (key, y) :: insert_index i name x rest
          else (name, x) :: (key, y) :: rest
      | None => (name, x) :: (key, y) :: rest
      end
  end.

(** [object[name] = x] on the members of an object. *)
Definition set_member (name : string) (x : json) (members : list (string * json))
    : list (string * json) :=
  match get_member name members with
  | Some _ => replace_member name x members
  | None =>
      match array_index name with
      | Some i => insert_index i name x members
      | None => members ++ [(name, x)]
      end
  end.

(** [delete object[name]] on the members of an object. *)
Definition remove_member (name : string) (members : list (string * json))
    : list (string * json) :=
  filter (λ member, member.1 ≠ name) members.

Definition length_value {A} (l : list A) : json :=
  JNumber (Q2Qc (inject_Z (Z.of_nat (length l)))).

(** The own property [name] of a value other than [null]; [None] is
    [undefined]. *)
Definition own_property (v : json) (name : string) : option json :=
  match v with
  | JObject members => get_member name members
  | JArray elements =>
      match array_index name with
      | Some i => elements !! i
      | None => if decide (name = "length") then Some (length_value elements) else None
      end
  | JString s =>
      match array_index name with
      | Some i =>
          (λ c, JString (String c EmptyString)) <$> String.list_ascii_of_string s !! i
      | None =>
          if decide (name = "length")
          then Some (length_value (String.list_ascii_of_string s))
          else None
      end
  | JNull | JBool _ | JNumber _ => None
  end.

(** [value[name]]: [None] when the read throws a TypeError, which it does on
    [null]. *)
Definition get_property (v : json) (name : string) : option (option json) :=
  match v with
  | JNull => None
  | _ => Some (own_property v name)
  end.

(** [value[name] = x] for an object [x]: the value afterwards, or [None] when
    the assignment throws (a TypeError on [null], a RangeError when an object
    is assigned to the length of an array).  An array is extended with holes,
    which [JSON.stringify] writes as [null]; a property of an array that is
    not an index is not written by [JSON.stringify]. *)
Definition assign_property (v : json) (name : string) (x : json) : option json :=
  match v with
  | JNull => None
  | JObject members => Some (JObject (set_member name x members))
  | JArray elements =>
      match array_index name with
      | Some i =>
          Some (JArray
                  (if decide (i < length elements) then <[i := x]> elements
                   else elements ++ replicate (i - length elements) JNull ++ [x]))
      | None => if decide (name = "length") then None else Some v
      end
  | JBool _ | JNumber _ | JString _ => Some v
  end.

(** [delete value[name]] on a value other than [null]: deleting an element of
    an array leaves a hole. *)
Definition delete_property (v : json) (name : string) : json :=
  match v with
  | JObject members => JObject (remove_member name members)
  | JArray elements =>
      match array_index name with
      | Some i => JArray (<[i := JNull]> elements)
      | None => v
      end
  | _ => v
  end.

(** [{ ...data, createdAt: now }] *)
Definition scenario_snapshot (data : json) (now : string) : json :=
  JObject (set_member "createdAt" (JString now) (default [] (Object_entries data))).

(** ** Scenarios in storage

    [saveScenario], [loadScenario], [getAllScenarios] and [deleteScenario] of
    the storage utilities.  The data of a scenario is a JSON value, as in the
    tests, which save plain data. *)

Module ScenarioStorage.
Section utilities.
Context `{JSON}.

(** [STORAGE_KEYS.SCENARIOS] *)
Definition SCENARIOS : string := "dpo_scenarios".

(** [now] is [new Date().toISOString()]. *)
Definition saveScenario (name : string) (data : json) (now : string)
    (store : gmap string string) : bool * gmap string string :=
  let scenarios := Storage.loadFromStorage SCENARIOS (JObject []) store in
  match assign_property scenarios name (scenario_snapshot data now) with
  | None => (false, store)
  | Some scenarios => Storage.saveToStorage SCENARIOS scenarios store
  end.

Definition loadScenario (name : string) (store : gmap string string) : json :=
  let scenarios := Storage.loadFromStorage SCENARIOS (JObject []) store in
  match get_property scenarios name with
  | None => JNull
  | Some value => or_null value
  end.

Definition getAllScenarios (store : gmap string string) : json :=
  Storage.loadFromStorage SCENARIOS (JObject []) store.

Definition deleteScenario (name : string) (store : gmap string string)
    : bool * gmap string string :=
  let scenarios := Storage.loadFromStorage SCENARIOS (JObject []) store in
  match get_property scenarios name with
  | None => (false, store)
  | Some value =>
      if negb (is_truthy value) then (false, store)
      else Storage.saveToStorage SCENARIOS (delete_property scenarios name) store
  end.

End utilities.
End ScenarioStorage.

(** The operator [-] converts its operands with the runtime's [ToNumber],
    which is [None] where the conversion throws.  Only its value on numbers is
    relied on. *)
Class Coercion := {
  ToNumber : json → option number;
  ToNumber_number x : ToNumber (JNumber x) = Some (Fin (Qcanon.this x)) }.

(** ** ScenarioModel

    The scenarios are kept in memory; their data is a JSON value, as in the
    tests. *)

Module ScenarioModel.

(** [this.scenarios], an object: its members. *)
Record t := { scenarios : list (string * json) }.

Record Comparison := {
  names_scenario1 : string;
  names_scenario2 : string;
  prices_scenario1 : json;
  prices_scenario2 : json;
  prices_difference : number;
  margins_scenario1 : json;
  margins_scenario2 : json;
  margins_difference : number }.

Definition new : t := {| scenarios := [] |}.

(** [now] is [new Date().toISOString()]. *)
Definition saveScenario (name : string) (data : json) (now : string) (this : t)
    : bool * t :=
  (true,
   {| scenarios := set_member name (scenario_snapshot data now) (scenarios this) |}).

Definition getScenario (name : string) (this : t) : json :=
  or_null (get_member name (scenarios this)).

Definition getAllScenarios (this : t) : json := JObject (scenarios this).

Definition deleteScenario (name : string) (this : t) : bool * t :=
  if is_truthy (get_member name (scenarios this)) then
    (true, {| scenarios := remove_member name (scenarios this) |})
  else (false, this).

(** [value?.name] *)
Definition optional_property (value : option json) (name : string) : option json :=
  match value with
  | None | Some JNull => None
  | Some v => own_property v name
  end.

(** [scenario.pricingStrategy?.priceRecommendations?.optimal?.field] on a
    scenario that is not [null]. *)
Definition optimal_field (scenario : json) (field : string) : option json :=
  optional_property
    (optional_property
       (optional_property (own_property scenario "pricingStrategy")
          "priceRecommendations")
       "optimal")
    field.

(** [value || 0] *)
Definition or_zero (value : option json) : json :=
  if is_truthy value then default JNull value else JNumber 0%Qc.

Section compare.
Context `{Coercion}.

(** [a - b] *)
Definition subtract (a b : json) : option number :=
  x ← ToNumber a; y ← ToNumber b; Some (js_sub x y).

(** The result is [None] when a subtraction throws, [Some None] for [null]. *)
Definition compareScenarios (scenario1Name scenario2Name : string) (this : t)
    : option (option Comparison) :=
  let scenario1 := getScenario scenario1Name this in
  let scenario2 := getScenario scenario2Name this in
  if negb (truthy_value scenario1) || negb (truthy_value scenario2) then Some None
  else
    prices ←
      subtract (or_zero (optimal_field scenario1 "price"))
               (or_zero (optimal_field scenario2 "price"));
    margins ←
      subtract (or_zero (optimal_field scenario1 "margin"))
               (or_zero (optimal_field scenario2 "margin"));
    Some (Some
      {| names_scenario1 := scenario1Name;
         names_scenario2 := scenario2Name;
         prices_scenario1 := or_zero (optimal_field scenario1 "price");
         prices_scenario2 := or_zero (optimal_field scenario2 "price");
         prices_difference := prices;
         margins_scenario1 := or_zero (optimal_field scenario1 "margin");
         margins_scenario2 := or_zero (optimal_field scenario2 "margin");
         margins_difference := margins |}).

End compare.

End ScenarioModel.

(** ** The slots written by an import *)

Section import_slots.
Context `{JSON}.

(** The content of a slot after the [forEach] of [importAllData] has handled
    one more entry. *)
Definition slot_after (slot : string) (content : option string)
    (entry : string * json) : option string :=
  if bool_decide (Storage.STORAGE_KEYS_get entry.1 = Some slot) && not_null entry.2
  then Some (JSON_stringify 0 entry.2)
  else content.

End import_slots.

(** * Properties *)

(** ** Numbers *)

Lemma same_refl x : same x x.
Proof. destruct x; simpl; auto; reflexivity. Qed.
Lemma same_sym x y : same x y → same y x.
Proof. destruct x, y; simpl; auto. intros ->. reflexivity. Qed.
Lemma same_trans x y z : same x y → same y z → same x z.
Proof. destruct x, y, z; simpl; try tauto. intros -> ->. reflexivity. Qed.

Global Instance same_equivalence : Equivalence (≡@{number}).
Proof.
  split; [intros x; apply same_refl
         | intros x y; apply same_sym
         | intros x y z; apply same_trans].
Qed.

Lemma Qcompare_0_comp a b : (a == b)%Q → (a ?= 0)%Q = (b ?= 0)%Q.
Proof. intros H. now rewrite H. Qed.
Lemma Qeq_bool_0_comp a b : (a == b)%Q → Qeq_bool a 0 = Qeq_bool b 0.
Proof. intros H. now rewrite H. Qed.
Lemma Qle_bool_0_comp a b : (a == b)%Q → Qle_bool 0 a = Qle_bool 0 b.
Proof. intros H. now rewrite H. Qed.

(** Case analysis on numbers related by [same]: the impossible pairings go,
    and the tests on related rationals are identified. *)
Ltac related_numbers :=
  unfold equiv, number_equiv in *;
  repeat match goal with
         | H : same ?x ?y |- _ =>
             is_var x; is_var y; destruct x, y; cbn [same] in H; try contradiction
         end.

Ltac number_simpl :=
  cbn [same js_neg js_add js_sub js_mul js_div js_le js_lt Math_max Math_round].

Ltac identify_tests :=
  repeat match goal with
         | H : (?a == ?b)%Q |- _ =>
             progress rewrite ?(Qcompare_0_comp a b H), ?(Qeq_bool_0_comp a b H),
               ?(Qle_bool_0_comp a b H)
         end.

Global Instance js_neg_proper : Proper ((≡) ==> (≡)) js_neg.
Proof. intros x x' Hx. related_numbers; number_simpl; auto. now rewrite Hx. Qed.

Global Instance js_add_proper : Proper ((≡) ==> (≡) ==> (≡)) js_add.
Proof. intros x x' Hx y y' Hy. related_numbers; number_simpl; auto. now rewrite Hx, Hy. Qed.

Global Instance js_sub_proper : Proper ((≡) ==> (≡) ==> (≡)) js_sub.
Proof. intros x x' Hx y y' Hy. related_numbers; number_simpl; auto. now rewrite Hx, Hy. Qed.

Global Instance js_mul_proper : Proper ((≡) ==> (≡) ==> (≡)) js_mul.
Proof.
  intros x x' Hx y y' Hy. related_numbers; cbn [js_mul]; identify_tests;
    try apply same_refl.
  number_simpl. now rewrite Hx, Hy.
Qed.

Global Instance js_div_proper : Proper ((≡) ==> (≡) ==> (≡)) js_div.
Proof.
  intros x x' Hx y y' Hy. related_numbers; cbn [js_div]; identify_tests;
    try apply same_refl.
  destruct (Qeq_bool _ 0); [apply same_refl|]. number_simpl. now rewrite Hx, Hy.
Qed.

Global Instance js_le_proper : Proper ((≡) ==> (≡) ==> (=)) js_le.
Proof. intros x x' Hx y y' Hy. related_numbers; number_simpl; auto. now rewrite Hx, Hy. Qed.

Global Instance js_lt_proper : Proper ((≡) ==> (≡) ==> (=)) js_lt.
Proof. intros x x' Hx y y' Hy. related_numbers; number_simpl; auto. now rewrite Hx, Hy. Qed.

Global Instance Math_max_proper : Proper ((≡) ==> (≡) ==> (≡)) Math_max.
Proof.
  intros x x' Hx y y' Hy. related_numbers; number_simpl; auto.
  match goal with
  | |- same (if Qle_bool ?a ?b then _ else _) (if Qle_bool ?c ?d then _ else _) =>
      assert (Qle_bool a b = Qle_bool c d) as -> by (now rewrite Hx, Hy);
      destruct (Qle_bool c d); assumption
  end.
Qed.

Global Instance Math_round_proper : Proper ((≡) ==> (≡)) Math_round.
Proof. intros x x' Hx. related_numbers; number_simpl; auto. now rewrite Hx. Qed.

Lemma js_mul_comm x y : js_mul x y ≡ js_mul y x.
Proof.
  unfold equiv, number_equiv. destruct x, y; cbn [js_mul]; try apply same_refl.
  cbn [same]. ring.
Qed.

Lemma Qle_bool_refl a : Qle_bool a a = true.
Proof. apply Qle_bool_iff. lra. Qed.

Lemma Qle_bool_false a b : Qle_bool a b = false ↔ (b < a)%Q.
Proof.
  split.
  - intros E. apply Qnot_le_lt. rewrite <- Qle_bool_iff, E. discriminate.
  - intros Hlt. destruct (Qle_bool a b) eqn:E; [|reflexivity].
    apply Qle_bool_iff in E. lra.
Qed.

Lemma js_lt_Math_max x y : js_lt (Math_max x y) y = false.
Proof.
  destruct x as [a| | |], y as [b| | |]; cbn;
    rewrite ?Qle_bool_refl; try reflexivity.
  destruct (Qle_bool a b) eqn:E; cbn.
  - now rewrite Qle_bool_refl.
  - apply Qle_bool_false in E. apply negb_false_iff, Qle_bool_iff. lra.
Qed.

Lemma js_le_Math_max x y : x ≠ NaN → y ≠ NaN → js_le y (Math_max x y) = true.
Proof.
  destruct x as [a| | |], y as [b| | |]; cbn;
    rewrite ?Qle_bool_refl; try reflexivity; try congruence.
  intros _ _. destruct (Qle_bool a b) eqn:E; cbn.
  - apply Qle_bool_refl.
  - apply Qle_bool_false in E. apply Qle_bool_iff. lra.
Qed.

Lemma Qeq_bool_false a b : Qeq_bool a b = false ↔ ¬ (a == b)%Q.
Proof.
  split.
  - intros E H. apply Qeq_bool_iff in H. congruence.
  - intros H. destruct (Qeq_bool a b) eqn:E; [|reflexivity].
    apply Qeq_bool_iff in E. contradiction.
Qed.

(** ** CostModel *)

Section cost_model.
Import CostModel.

Lemma ordinary_magnitude_nonzero c : ordinary_magnitude c → ¬ (c == 0)%Q.
Proof.
  intros [Hlow _] Hzero. rewrite Hzero in Hlow.
  assert (0 < 1 # 2 ^ 900)%Q as Hpos by reflexivity.
  change (Qabs 0) with 0%Q in Hlow. lra.
Qed.

Lemma tolerance_pos : (0 < tolerance)%Q.
Proof. reflexivity. Qed.

(** The margin at the minimum viable price, as the two quotients of the
    code. *)
Lemma margin_at_minimum_viable_price_value (cm : CostModel.t) (c m : Q) :
  calculateTotalCostPerUnit cm = Fin c → ¬ (c == 0)%Q →
  targetMargin cm = Fin m → (m < 1)%Q →
  ∃ r : Q,
    calculateMarginAtPrice (calculateMinimumViablePrice cm) cm = Fin r ∧
    (r == m)%Q.
Proof.
  intros Hc Hc0 Hm Hm1.
  unfold calculateMarginAtPrice, calculateMinimumViablePrice. rewrite Hc, Hm.
  cbn [js_sub js_div].
  assert (¬ (1 - m == 0)%Q) as Hden by lra.
  rewrite (proj2 (Qeq_bool_false (1 - m) 0) Hden). cbn [js_sub js_div].
  assert (¬ (c / (1 - m) == 0)%Q) as Hprice.
  { intros Hzero. apply Hc0.
    assert (c == c / (1 - m) * (1 - m))%Q as -> by (field; exact Hden).
    rewrite Hzero. ring. }
  rewrite (proj2 (Qeq_bool_false _ 0) Hprice).
  eexists. split; [reflexivity|]. field. split; assumption.
Qed.

(** C1, as amended.  For a cost configuration whose total cost per unit is a
    finite number of ordinary magnitude, so not zero, and a target margin in
    [0,1), the margin at the minimum viable price is a finite number within
    the tolerance of the target margin. *)
Theorem margin_at_minimum_viable_price (cm : CostModel.t) (c m : Q) :
  calculateTotalCostPerUnit cm = Fin c → ordinary_magnitude c →
  targetMargin cm = Fin m → (0 <= m)%Q → (m < 1)%Q →
  ∃ r : Q,
    calculateMarginAtPrice (calculateMinimumViablePrice cm) cm = Fin r ∧
    (Qabs (r - m) <= tolerance)%Q.
Proof.
  intros Hc Hordinary Hm _ Hm1.
  destruct (margin_at_minimum_viable_price_value cm c m Hc
              (ordinary_magnitude_nonzero c Hordinary) Hm Hm1) as (r & Hr & Hrm).
  exists r. split; [exact Hr|].
  pose proof tolerance_pos. apply Qabs_Qle_condition. split; lra.
Qed.

Lemma margin_at_minimum_viable_price_witness :
  ∃ r : Q,
    calculateMarginAtPrice (calculateMinimumViablePrice test_costModel) test_costModel
      = Fin r ∧
    (Qabs (r - 0.30) <= tolerance)%Q.
Proof.
  refine (margin_at_minimum_viable_price test_costModel _ 0.30 _ _ _ _ _).
  - vm_compute. reflexivity.
  - split; vm_compute; discriminate.
  - reflexivity.
  - vm_compute. discriminate.
  - reflexivity.
Defined.

(** C1 as stated fails where nothing has been entered: a new cost model has
    total cost 0, so its minimum viable price is 0 and the margin there is
    0/0. *)
Lemma margin_at_minimum_viable_price_without_costs :
  finite_costs (new "service") ∧
  targetMargin (new "service") = Fin 0.30 ∧
  expectedVolume (new "service") = Fin 100 ∧
  calculateMarginAtPrice (calculateMinimumViablePrice (new "service")) (new "service")
    = NaN ∧
  ¬ calculateMarginAtPrice (calculateMinimumViablePrice (new "service")) (new "service")
    ≡ targetMargin (new "service").
Proof.
  split; [repeat split; constructor|].
  repeat split; try reflexivity.
  vm_compute. tauto.
Qed.

(** C2.  [calculateBreakEvenVolume(price)] is +infinity when
    [price <= calculateTotalCostPerUnit()]; otherwise it is the sum of the
    monthly-normalized indirect costs, a yearly cost counting for a twelfth
    of its amount, divided by the price less the total direct and time costs.
    The divisor is written as the code forms it, [price - (direct + time)]:
    the sum of the two totals is taken first and subtracted from the price
    once. *)
Theorem break_even_volume_cases (cm : CostModel.t) (price : number) :
  (js_le price (calculateTotalCostPerUnit cm) = true →
   calculateBreakEvenVolume price cm = Infinity) ∧
  (js_le price (calculateTotalCostPerUnit cm) = false →
   calculateBreakEvenVolume price cm =
   js_div
     (reduce_sum
        (λ cost, if decide (ic_period cost = "year")
                 then js_div (ic_amount cost) (Fin 12)
                 else ic_amount cost)
        (indirectCosts cm))
     (js_sub price
             (js_add (calculateTotalDirectCost cm) (calculateTotalTimeCost cm)))).
Proof.
  unfold calculateBreakEvenVolume. split; intros Hprice; rewrite Hprice.
  - reflexivity.
  - reflexivity.
Qed.

Lemma break_even_volume_cases_witness :
  calculateBreakEvenVolume (Fin 700) test_costModel = Infinity ∧
  calculateBreakEvenVolume (Fin 1200) test_costModel ≡ Fin (40 # 11).
Proof.
  split.
  - apply (proj1 (break_even_volume_cases test_costModel (Fin 700))). reflexivity.
  - rewrite (proj2 (break_even_volume_cases test_costModel (Fin 1200))) by reflexivity.
    reflexivity.
Defined.

End cost_model.

(** ** CustomerSegmentModel *)

Section customer_segment_model.
Import CustomerSegmentModel.

(** C5, as amended.  Without segments the weighted elasticity is the default
    -0.5; with segments it is the sum of elasticity x size over the sum of the
    sizes.  The guard is on the number of segments only: the result is a
    number (not NaN) whenever the two sums are finite and the sum of the sizes
    is not 0. *)
Theorem weighted_elasticity_cases (m : CustomerSegmentModel.t) :
  (segments m = [] → calculateWeightedElasticity m = Fin (-0.5)) ∧
  (segments m ≠ [] →
   calculateWeightedElasticity m =
     js_div
       (reduce_sum (λ seg, js_mul (seg_priceElasticity seg) (seg_size seg))
                   (segments m))
       (reduce_sum seg_size (segments m))) ∧
  (∀ total weighted : Q,
     reduce_sum seg_size (segments m) = Fin total → ¬ (total == 0)%Q →
     reduce_sum (λ seg, js_mul (seg_priceElasticity seg) (seg_size seg))
                (segments m) = Fin weighted →
     calculateWeightedElasticity m ≠ NaN).
Proof.
  unfold calculateWeightedElasticity.
  destruct (segments m) as [|seg rest] eqn:E.
  - split; [reflexivity|]. split; [congruence|]. discriminate.
  - split; [discriminate|]. split; [reflexivity|].
    intros total weighted -> Htotal ->. cbn [js_div].
    rewrite (proj2 (Qeq_bool_false total 0) Htotal). discriminate.
Qed.

Lemma weighted_elasticity_cases_witness :
  calculateWeightedElasticity CustomerSegmentModel.new = Fin (-0.5) ∧
  calculateWeightedElasticity
    (snd (addSegment "Enterprise" (Fin 30) (Fin (-3.35)) "Large enterprise customers"
            CustomerSegmentModel.new)) ≠ NaN.
Proof.
  split.
  - apply (proj1 (weighted_elasticity_cases CustomerSegmentModel.new)). reflexivity.
  - eapply (proj2 (proj2 (weighted_elasticity_cases _))).
    + vm_compute. reflexivity.
    + vm_compute. discriminate.
    + vm_compute. reflexivity.
Defined.

(** C5 as stated fails on a model whose segments all have size 0: the guard
    is on the number of segments, and the quotient is 0/0. *)
Lemma weighted_elasticity_of_empty_segment :
  let m := snd (addSegment "Prospects" (Fin 0) (Fin (-1)) "" CustomerSegmentModel.new) in
  segments m ≠ [] ∧
  reduce_sum seg_size (segments m) = Fin 0 ∧
  calculateWeightedElasticity m = NaN.
Proof. repeat split. discriminate. Qed.

End customer_segment_model.

(** ** PricingModel *)

Section pricing_model.
Import PricingModel.

Global Instance round_to_cents_proper : Proper ((≡) ==> (≡)) round_to_cents.
Proof. intros x y Hxy. unfold round_to_cents. now rewrite Hxy. Qed.

(** C3.  Without competitors the competitor-indexed price is the cost-plus
    price.  With at least one it is the larger of the mean competitor price
    times the position multiplier (budget 0.85, mid-market 1.0, premium 1.25)
    and the minimum viable price, so it is never below the minimum viable
    price: [result < minimum] is false, and [minimum <= result] is true
    whenever the result is a number. *)
Theorem competitor_indexed_price_cases (pm : PricingModel.t) :
  (competitors pm = [] →
   calculateCompetitorIndexedPrice pm = calculateCostPlusPrice (Fin 1) pm) ∧
  (competitors pm ≠ [] →
   calculateCompetitorIndexedPrice pm =
     Math_max
       (js_mul
          (js_div (reduce_sum cp_price (competitors pm)) (js_length (competitors pm)))
          match marketPosition pm with
          | budget => Fin 0.85
          | mid_market => Fin 1.0
          | premium => Fin 1.25
          end)
       (CostModel.calculateMinimumViablePrice (costModel pm)) ∧
   js_lt (calculateCompetitorIndexedPrice pm)
         (CostModel.calculateMinimumViablePrice (costModel pm)) = false ∧
   (calculateCompetitorIndexedPrice pm ≠ NaN →
    js_le (CostModel.calculateMinimumViablePrice (costModel pm))
          (calculateCompetitorIndexedPrice pm) = true)).
Proof.
  unfold calculateCompetitorIndexedPrice.
  destruct (competitors pm) as [|competitor rest] eqn:E.
  - split; [reflexivity|congruence].
  - split; [discriminate|]. intros _. split; [|split].
    + destruct (marketPosition pm); reflexivity.
    + apply js_lt_Math_max.
    + intros Hnumber. apply js_le_Math_max; intros Hnan; apply Hnumber.
      * now rewrite Hnan.
      * rewrite Hnan. now destruct (js_mul _ _).
Qed.

Lemma competitor_indexed_price_cases_witness :
  calculateCompetitorIndexedPrice (PricingModel.new test_costModel) =
    calculateCostPlusPrice (Fin 1) (PricingModel.new test_costModel) ∧
  js_lt (calculateCompetitorIndexedPrice test_pricingModel)
        (CostModel.calculateMinimumViablePrice test_costModel) = false.
Proof.
  split.
  - apply (proj1 (competitor_indexed_price_cases (PricingModel.new test_costModel))).
    reflexivity.
  - apply (proj2 (competitor_indexed_price_cases test_pricingModel)).
    discriminate.
Defined.

(** [Math.round(price * 100) / 100], when [price * 100] is finite, is the
    quotient by 100 of the integer nearest to that product, a tie going up. *)
Lemma round_to_cents_nearest (x : number) (y : Q) :
  js_mul x (Fin 100) = Fin y →
  ∃ n : Z,
    round_to_cents x = js_div (Fin (inject_Z n)) (Fin 100) ∧
    (inject_Z n - (1 # 2) <= y)%Q ∧ (y < inject_Z n + (1 # 2))%Q.
Proof.
  intros Hy. unfold round_to_cents. rewrite Hy. cbn [Math_round].
  exists (Qfloor (y + 0.5)). split; [reflexivity|].
  pose proof (Qfloor_le (y + 0.5)) as Hle.
  pose proof (Qlt_floor (y + 0.5)) as Hlt.
  rewrite inject_Z_plus in Hlt. change (inject_Z 1) with 1%Q in Hlt.
  split; lra.
Qed.

Lemma js_mul_Fin_inv x b y : js_mul x (Fin b) = Fin y → ∃ a, x = Fin a.
Proof.
  destruct x as [a| | |]; cbn; [eauto| | |discriminate];
    destruct (b ?= 0)%Q; discriminate.
Qed.

(** C4.  The price of the 'optimal' recommendation is
    0.4 x cost-plus + 0.3 x competitor-indexed + 0.3 x value-based, rounded
    to 2 decimal places: when the blend times 100 is finite, the price is the
    quotient by 100 of the integer nearest to that product, a tie going up. *)
Theorem optimal_recommendation_price (pm : PricingModel.t) :
  let blend :=
    js_add
      (js_add (js_mul (Fin 0.4) (calculateCostPlusPrice (Fin 1) pm))
              (js_mul (Fin 0.3) (calculateCompetitorIndexedPrice pm)))
      (js_mul (Fin 0.3) (calculateValueBasedPrice pm)) in
  price (getPriceRecommendation "optimal" pm) ≡ round_to_cents blend ∧
  ∀ y : Q, js_mul blend (Fin 100) = Fin y →
    ∃ n : Z,
      price (getPriceRecommendation "optimal" pm)
        = js_div (Fin (inject_Z n)) (Fin 100) ∧
      (inject_Z n - (1 # 2) <= y)%Q ∧ (y < inject_Z n + (1 # 2))%Q.
Proof.
  intros blend.
  set (computed :=
         js_add
           (js_add (js_mul (calculateCostPlusPrice (Fin 1) pm) (Fin 0.4))
                   (js_mul (calculateCompetitorIndexedPrice pm) (Fin 0.3)))
           (js_mul (calculateValueBasedPrice pm) (Fin 0.3))).
  assert (price (getPriceRecommendation "optimal" pm) = round_to_cents computed)
    as Hprice by reflexivity.
  assert (blend ≡ computed) as Hblend
    by (unfold blend, computed; repeat apply js_add_proper; apply js_mul_comm).
  split; [rewrite Hprice; apply round_to_cents_proper; now symmetry|].
  intros y Hy. destruct (js_mul_Fin_inv _ _ _ Hy) as [b Hb].
  rewrite Hb in Hy, Hblend. cbn [js_mul] in Hy. injection Hy as <-.
  destruct computed as [b'| | |] eqn:Hcomputed; try contradiction.
  unfold equiv, number_equiv in Hblend. cbn [same] in Hblend.
  destruct (round_to_cents_nearest (Fin b') (b' * 100) eq_refl)
    as (n & Hn & Hlow & Hhigh).
  exists n. split; [now rewrite Hprice|]. rewrite Hblend. split; assumption.
Qed.

Lemma optimal_recommendation_price_witness :
  ∃ n : Z,
    price (getPriceRecommendation "optimal" test_pricingModel)
      = js_div (Fin (inject_Z n)) (Fin 100) ∧
    (inject_Z n - (1 # 2) <= 902800 # 7)%Q ∧ (902800 # 7 < inject_Z n + (1 # 2))%Q.
Proof.
  edestruct (proj2 (optimal_recommendation_price test_pricingModel))
    as (n & Hprice & Hlow & Hhigh); [vm_compute; reflexivity|].
  exists n. split; [exact Hprice|]. split; lra.
Defined.


(** Nor must they differ: on a model without costs, a competitor price of
    10.0078125 is rounded to 10.01, yet the margin is 1 and the break-even
    volume 0 at either price. *)
Lemma rounding_may_leave_margin_and_volume_unchanged :
  let pm := addCompetitor "Competitor" (Fin 10.0078125) []
              (PricingModel.new (CostModel.new "service")) in
  let recommendation := getPriceRecommendation "competitor" pm in
  calculateCompetitorIndexedPrice pm ≡ Fin 10.0078125 ∧
  price recommendation ≡ Fin 10.01 ∧
  margin recommendation ≡
    CostModel.calculateMarginAtPrice (price recommendation) (costModel pm) ∧
  breakEvenVolume recommendation ≡
    CostModel.calculateBreakEvenVolume (price recommendation) (costModel pm).
Proof. repeat split; vm_compute; reflexivity. Qed.






(** C9.  A position other than budget, mid-market and premium makes
    [setMarketPosition] throw and leaves the model as it was; each of the
    three accepted values becomes the market position, nothing else
    changing. *)
Theorem setMarketPosition_cases (pm : PricingModel.t) (position : string) :
  (position ∉ ["budget"; "mid-market"; "premium"] →
   ∃ message, setMarketPosition position pm = (Thrown message, pm)) ∧
  (∀ p : MarketPosition, position = position_name p →
     fst (setMarketPosition position pm) = Returned ∧
     marketPosition (snd (setMarketPosition position pm)) = p ∧
     costModel (snd (setMarketPosition position pm)) = costModel pm ∧
     competitors (snd (setMarketPosition position pm)) = competitors pm ∧
     valueFactors (snd (setMarketPosition position pm)) = valueFactors pm ∧
     customerSegmentModel (snd (setMarketPosition position pm)) =
       customerSegmentModel pm ∧
     baseDemand (snd (setMarketPosition position pm)) = baseDemand pm).
Proof.
  split.
  - intros Hnot. unfold setMarketPosition, accepted_position.
    destruct (decide (position = "budget")) as [->|_];
      [exfalso; apply Hnot; repeat constructor|].
    destruct (decide (position = "mid-market")) as [->|_];
      [exfalso; apply Hnot; repeat constructor|].
    destruct (decide (position = "premium")) as [->|_];
      [exfalso; apply Hnot; repeat constructor|].
    eauto.
  - intros p ->. destruct p; cbn; auto 10.
Qed.

Lemma setMarketPosition_cases_witness :
  (∃ message, setMarketPosition "luxury" test_pricingModel
              = (Thrown message, test_pricingModel)) ∧
  marketPosition (snd (setMarketPosition "premium" test_pricingModel)) = premium.
Proof.
  split.
  - apply (proj1 (setMarketPosition_cases test_pricingModel "luxury")).
    rewrite !elem_of_cons, elem_of_nil. intros [?|[?|[?|[]]]]; discriminate.
  - apply (proj2 (setMarketPosition_cases test_pricingModel "premium") premium).
    reflexivity.
Defined.

End pricing_model.

(** ** The reference codec meets the laws of [JSON] *)

Section reference_codec.
Import ReferenceCodec.

Lemma of_digits_digits p : of_digits (digits p) = Some p.
Proof. induction p as [p IH|p IH|]; cbn; [rewrite IH ..|]; reflexivity. Qed.

Lemma of_tree_to_tree v : of_tree (to_tree v) = Some v.
Proof.
  induction v as [| | | |elements IH|members IH] using json_ind; cbn; try reflexivity.
  - rewrite mapM_fmap_Forall_Some; [reflexivity|exact IH].
  - rewrite mapM_fmap_Forall_Some; [reflexivity|].
    eapply Forall_impl; [|exact IH]. intros [key x]. cbn. now intros ->.
Qed.

Lemma parse_stringify indent v :
  json_wf v = true → parse (stringify indent v) = Some v.
Proof.
  intros Hwf. unfold parse, stringify. cbn.
  rewrite of_digits_digits. cbn. rewrite decode_encode. cbn.
  rewrite of_tree_to_tree. cbn. now rewrite Hwf.
Qed.

Lemma parse_wf s v : parse s = Some v → json_wf v = true.
Proof.
  unfold parse. destruct s as [|c s]; [discriminate|].
  case_decide; [|discriminate].
  destruct (of_digits s) as [p|]; [|discriminate]. cbn.
  destruct (decode p) as [t|]; [|discriminate]. cbn.
  destruct (of_tree t) as [v'|]; [|discriminate]. cbn.
  destruct (json_wf v') eqn:E; [|discriminate]. now intros [= <-].
Qed.

End reference_codec.

Definition reference_JSON : JSON :=
  {| JSON_parse := ReferenceCodec.parse;
     JSON_stringify := ReferenceCodec.stringify;
     JSON_parse_stringify := parse_stringify;
     JSON_parse_wf := parse_wf;
     JSON_parse_empty := eq_refl |}.

(** ** Storage utilities *)

(** A backend holding a cost analysis and a pricing strategy, as in Test 4 of
    the storage tests. *)
Definition test_store : gmap string string :=
  snd (Storage.saveToStorage (H := reference_JSON) "dpo_pricing_strategy"
         (JObject [("strategy", JString "cost-plus"); ("margin", JNumber (Q2Qc 0.3))])
         (snd (Storage.saveToStorage (H := reference_JSON) "dpo_cost_analysis"
                 (JObject [("costs",
                            JArray [JObject [("name", JString "Materials");
                                             ("value", JNumber (Q2Qc 50))]])])
                 ∅))).

(** A document with a category, a category without content, and a member
    that names no category. *)
Definition test_document : json :=
  JObject [("COST_ANALYSIS", JObject [("total", JNumber (Q2Qc 500))]);
           ("PRICING_STRATEGY", JNull);
           ("NOTES", JString "draft")].

Section storage.
Import Storage.
Context `{JSON}.

Lemma STORAGE_KEYS_categories : NoDup STORAGE_KEYS.*1.
Proof. apply (bool_decide_unpack _). vm_compute. exact I. Qed.

Lemma STORAGE_KEYS_slots : NoDup STORAGE_KEYS.*2.
Proof. apply (bool_decide_unpack _). vm_compute. exact I. Qed.

Lemma STORAGE_KEYS_own key storageKey :
  (list_to_map STORAGE_KEYS : gmap string string) !! key = Some storageKey ↔
  (key, storageKey) ∈ STORAGE_KEYS.
Proof. symmetry. apply elem_of_list_to_map, STORAGE_KEYS_categories. Qed.

(** A category is read as its own slot. *)
Lemma STORAGE_KEYS_get_category key storageKey :
  (key, storageKey) ∈ STORAGE_KEYS → STORAGE_KEYS_get key = Some storageKey.
Proof. intros Hin%STORAGE_KEYS_own. unfold STORAGE_KEYS_get. now rewrite Hin. Qed.

(** Only the names of [Object.prototype] are inherited. *)
Lemma inherited_slot_None key : key ∉ Object_prototype → inherited_slot key = None.
Proof.
  intros Hkey. unfold inherited_slot.
  destruct (decide (key = "__proto__")) as [->|_].
  { exfalso. apply Hkey. apply (bool_decide_unpack _). vm_compute. exact I. }
  destruct (decide (key = "constructor")) as [->|_].
  { exfalso. apply Hkey. apply (bool_decide_unpack _). vm_compute. exact I. }
  now rewrite decide_False.
Qed.

(** What is inherited is not empty and is the slot of no category. *)
Lemma inherited_slot_Some key slot :
  inherited_slot key = Some slot →
  key ∈ Object_prototype ∧ (slot ∉ STORAGE_KEYS.*2) ∧ slot ≠ "".
Proof.
  unfold inherited_slot.
  destruct (decide (key = "__proto__")) as [->|_].
  { intros [= <-]. split; [|split; [|discriminate]];
      apply (bool_decide_unpack _); vm_compute; exact I. }
  destruct (decide (key = "constructor")) as [->|_].
  { intros [= <-]. split; [|split; [|discriminate]];
      apply (bool_decide_unpack _); vm_compute; exact I. }
  destruct (decide (key ∈ Object_prototype)) as [Hkey|_]; [|discriminate].
  intros [= <-]. split; [exact Hkey|]. split; [|discriminate].
  unfold STORAGE_KEYS. cbn. rewrite !elem_of_cons, elem_of_nil.
  intros Hslot. repeat destruct Hslot as [Hslot|Hslot]; try discriminate.
  destruct Hslot.
Qed.

Lemma inherited_slot_inj key key' slot :
  inherited_slot key = Some slot → inherited_slot key' = Some slot → key = key'.
Proof.
  intros Hkey Hkey'.
  destruct (inherited_slot_Some _ _ Hkey) as [Hin _].
  destruct (inherited_slot_Some _ _ Hkey') as [Hin' _].
  assert (Forall (λ k, Forall (λ k', inherited_slot k = inherited_slot k' → k = k')
                          Object_prototype) Object_prototype) as Hall
    by (apply (bool_decide_unpack _); vm_compute; exact I).
  rewrite list.Forall_forall in Hall. specialize (Hall key Hin).
  rewrite list.Forall_forall in Hall. apply (Hall key' Hin'). congruence.
Qed.

Lemma STORAGE_KEYS_get_cases key slot :
  STORAGE_KEYS_get key = Some slot →
  (key, slot) ∈ STORAGE_KEYS ∨ inherited_slot key = Some slot.
Proof.
  unfold STORAGE_KEYS_get.
  destruct (_ !! key) as [storageKey|] eqn:Hown; [|auto].
  intros [= <-]. left. now apply STORAGE_KEYS_own.
Qed.

(** Under a name that [Object.prototype] does not define, only a category is
    read. *)
Lemma STORAGE_KEYS_get_own key slot :
  key ∉ Object_prototype →
  STORAGE_KEYS_get key = Some slot → (key, slot) ∈ STORAGE_KEYS.
Proof.
  intros Hkey [Hown|Hinherited]%STORAGE_KEYS_get_cases; [exact Hown|].
  rewrite (inherited_slot_None key Hkey) in Hinherited. discriminate.
Qed.

(** In an association list without repeated values, a value has one key. *)
Lemma assoc_key_unique {A B} (l : list (A * B)) a a' b :
  NoDup l.*2 → (a, b) ∈ l → (a', b) ∈ l → a = a'.
Proof.
  induction l as [|[x y] l IH]; cbn; intros Hnodup Ha Ha'.
  - now apply elem_of_nil in Ha.
  - apply list.NoDup_cons in Hnodup as [Hy Hnodup].
    apply elem_of_cons in Ha as [Ha|Ha]; apply elem_of_cons in Ha' as [Ha'|Ha'].
    + congruence.
    + exfalso. apply Hy. injection Ha as _ <-.
      apply (list_elem_of_fmap_2 snd) in Ha'. exact Ha'.
    + exfalso. apply Hy. injection Ha' as _ <-.
      apply (list_elem_of_fmap_2 snd) in Ha. exact Ha.
    + auto.
Qed.

Lemma STORAGE_KEYS_get_inj key key' storageKey :
  STORAGE_KEYS_get key = Some storageKey →
  STORAGE_KEYS_get key' = Some storageKey → key = key'.
Proof.
  intros [Hown|Hinherited]%STORAGE_KEYS_get_cases
         [Hown'|Hinherited']%STORAGE_KEYS_get_cases.
  - eapply assoc_key_unique; [apply STORAGE_KEYS_slots|exact Hown|exact Hown'].
  - destruct (inherited_slot_Some _ _ Hinherited') as (_ & Hslot & _).
    exfalso. apply Hslot. apply (list_elem_of_fmap_2 snd) in Hown. exact Hown.
  - destruct (inherited_slot_Some _ _ Hinherited) as (_ & Hslot & _).
    exfalso. apply Hslot. apply (list_elem_of_fmap_2 snd) in Hown'. exact Hown'.
  - eapply inherited_slot_inj; eauto.
Qed.

Lemma STORAGE_KEYS_truthy key storageKey :
  STORAGE_KEYS_get key = Some storageKey → truthy (Some storageKey) = true.
Proof.
  intros [Hown|Hinherited]%STORAGE_KEYS_get_cases.
  - revert Hown. unfold STORAGE_KEYS. rewrite !elem_of_cons, elem_of_nil.
    intros Hin. repeat destruct Hin as [[= _ ->]|Hin]; try reflexivity. destruct Hin.
  - destruct (inherited_slot_Some _ _ Hinherited) as (_ & _ & Hslot).
    now destruct storageKey.
Qed.

Lemma not_null_true v : not_null v = true ↔ v ≠ JNull.
Proof. destruct v; cbn; split; congruence. Qed.

(** What one step of the import does to a storage slot. *)
Lemma import_entry_lookup store key data slot :
  import_entry store (key, data) !! slot =
    if bool_decide (STORAGE_KEYS_get key = Some slot) && not_null data
    then Some (JSON_stringify 0 data)
    else store !! slot.
Proof.
  unfold import_entry, saveToStorage, setItem.
  destruct (STORAGE_KEYS_get key) as [storageKey|] eqn:Hget; [|reflexivity].
  rewrite (STORAGE_KEYS_truthy key storageKey Hget).
  destruct (not_null data); cbn [andb snd];
    [rewrite andb_true_r|now rewrite andb_false_r].
  destruct (decide (storageKey = slot)) as [->|Hne].
  - now rewrite lookup_insert_eq, bool_decide_eq_true_2.
  - rewrite lookup_insert_ne by exact Hne.
    rewrite bool_decide_eq_false_2; [reflexivity|congruence].
Qed.

(** What the whole [forEach] does to a storage slot, when no key occurs
    twice among the entries. *)
Lemma import_entries_lookup entries store slot :
  NoDup entries.*1 →
  (∀ key data, (key, data) ∈ entries → STORAGE_KEYS_get key = Some slot →
     data ≠ JNull →
     foldl import_entry store entries !! slot = Some (JSON_stringify 0 data)) ∧
  ((∀ key data, (key, data) ∈ entries → STORAGE_KEYS_get key = Some slot →
      data = JNull) →
   foldl import_entry store entries !! slot = store !! slot).
Proof.
  induction entries as [|[key0 data0] entries IH] using rev_ind; intros Hnodup.
  - split; [|reflexivity]. intros key data Hin. now apply elem_of_nil in Hin.
  - rewrite fmap_app in Hnodup.
    apply list.NoDup_app in Hnodup as (Hnodup & Hfresh & _).
    destruct (IH Hnodup) as [IHwrite IHkeep]. clear IH.
    rewrite foldl_snoc, import_entry_lookup.
    destruct (bool_decide (STORAGE_KEYS_get key0 = Some slot)) eqn:Hget0; cbn.
    + apply bool_decide_eq_true in Hget0. split.
      * intros key data Hin Hget Hdata.
        apply elem_of_app in Hin as [Hin|Hin].
        -- exfalso.
           assert (key = key0) as -> by (eapply STORAGE_KEYS_get_inj; eauto).
           eapply Hfresh; [|apply list_elem_of_singleton; reflexivity].
           apply (list_elem_of_fmap_2 fst) in Hin. exact Hin.
        -- apply list_elem_of_singleton in Hin as [= -> ->].
           apply not_null_true in Hdata. now rewrite Hdata.
      * intros Hnone.
        assert (data0 = JNull) as ->.
        { eapply Hnone; [|exact Hget0].
          apply elem_of_app. right. apply list_elem_of_singleton. reflexivity. }
        cbn. apply IHkeep. intros key data Hin. apply Hnone, elem_of_app. auto.
    + apply bool_decide_eq_false in Hget0. split.
      * intros key data Hin Hget Hdata.
        apply elem_of_app in Hin as [Hin|Hin]; [eauto|].
        apply list_elem_of_singleton in Hin as [= -> ->]. contradiction.
      * intros Hnone. apply IHkeep.
        intros key data Hin. apply Hnone, elem_of_app. auto.
Qed.

Lemma json_wf_members members :
  json_wf (JObject members) = true →
  NoDup members.*1 ∧ ∀ key data, (key, data) ∈ members → json_wf data = true.
Proof.
  cbn [json_wf]. intros [Hkeys Hall]%andb_true_iff. split.
  - now apply bool_decide_eq_true in Hkeys.
  - intros key data Hin. apply Is_true_true_2, forallb_True in Hall.
    rewrite list.Forall_forall in Hall. apply Is_true_true_1.
    apply (Hall (key, data) Hin).
Qed.

Lemma loadFromStorage_ext key defaultValue store store' :
  store !! key = store' !! key →
  loadFromStorage key defaultValue store = loadFromStorage key defaultValue store'.
Proof. unfold loadFromStorage, getItem. now intros ->. Qed.

Lemma loadFromStorage_wf key defaultValue store :
  json_wf defaultValue = true →
  json_wf (loadFromStorage key defaultValue store) = true.
Proof.
  intros Hdefault. unfold loadFromStorage.
  destruct (getItem key store) as [serializedData|]; [|exact Hdefault].
  destruct (JSON_parse serializedData) as [data|] eqn:Hparse; [|exact Hdefault].
  eapply JSON_parse_wf, Hparse.
Qed.

(** A value that was saved is the value that is loaded. *)
Lemma loadFromStorage_saved key defaultValue indent data store :
  json_wf data = true →
  store !! key = Some (JSON_stringify indent data) →
  loadFromStorage key defaultValue store = data.
Proof.
  intros Hwf Hstored. unfold loadFromStorage, getItem. rewrite Hstored.
  pose proof (JSON_parse_stringify indent data Hwf) as Hparse.
  destruct (JSON_stringify indent data) as [|c s] eqn:Htext.
  - rewrite JSON_parse_empty in Hparse. discriminate.
  - now rewrite Hparse.
Qed.

(** X31.  On a document that [JSON.parse] rejects,
    [importAllData] returns false and the backend is as it was: nothing is
    written.  On a document that is a JSON object, it returns true and every
    member that names a category and whose content is not null is written to
    that category's slot, which then holds that content.  When no member is
    named like a member of [Object.prototype], a slot changes only on behalf
    of such a member: members with other names, and null contents, are
    ignored. *)
Theorem importAllData_cases (jsonData : string) (store : gmap string string) :
  (JSON_parse jsonData = None → importAllData jsonData store = (false, store)) ∧
  (∀ members, JSON_parse jsonData = Some (JObject members) →
     ∃ store', importAllData jsonData store = (true, store') ∧
       (∀ key data storageKey,
          (key, data) ∈ members → (key, storageKey) ∈ STORAGE_KEYS → data ≠ JNull →
          store' !! storageKey = Some (JSON_stringify 0 data) ∧
          loadFromStorage storageKey JNull store' = data) ∧
       ((∀ key data, (key, data) ∈ members → key ∉ Object_prototype) →
        ∀ slot,
          (∀ key data, (key, data) ∈ members → (key, slot) ∈ STORAGE_KEYS →
                       data = JNull) →
          store' !! slot = store !! slot)).
Proof.
  unfold importAllData. split; [now intros ->|].
  intros members Hparse. rewrite Hparse. cbn [Object_entries].
  eexists. split; [reflexivity|].
  apply JSON_parse_wf, json_wf_members in Hparse as [Hkeys Hwf].
  split.
  - intros key data storageKey Hin Hcategory Hdata.
    assert (foldl import_entry store members !! storageKey
            = Some (JSON_stringify 0 data)) as Hstored.
    { eapply (proj1 (import_entries_lookup members store storageKey Hkeys)); eauto.
      now apply STORAGE_KEYS_get_category. }
    split; [exact Hstored|].
    eapply loadFromStorage_saved; eauto.
  - intros Hnames slot Hnone.
    apply (proj2 (import_entries_lookup members store slot Hkeys)).
    intros key data Hin Hget. eapply Hnone; eauto.
    eapply STORAGE_KEYS_get_own; eauto.
Qed.

(** C7 fails on a member named like a member of [Object.prototype].
    [STORAGE_KEYS[key]] is a plain property read, so for the document
    [{"constructor": true}] it yields the inherited function [Object], which
    is truthy: the member is not ignored, its content is written under the
    text of that function, whatever the backend holds. *)
Theorem importAllData_writes_for_constructor (store : gmap string string) :
  ("constructor" ∉ STORAGE_KEYS.*1) ∧
  importAllData (JSON_stringify 0 (JObject [("constructor", JBool true)])) store
  = (true,
     <["function Object() { [native code] }" := JSON_stringify 0 (JBool true)]>
       store).
Proof.
  split; [apply (bool_decide_unpack _); vm_compute; exact I|].
  unfold importAllData. rewrite JSON_parse_stringify by reflexivity.
  reflexivity.
Qed.

Lemma exportData_wf store : json_wf (exportData store) = true.
Proof.
  unfold exportData. cbn [json_wf]. apply andb_true_intro. split.
  - apply bool_decide_eq_true. rewrite <- list_fmap_compose.
    erewrite list_fmap_ext; [apply STORAGE_KEYS_categories|].
    now intros _ [key storageKey] _.
  - apply Is_true_true_1, forallb_True, Forall_fmap, list.Forall_forall.
    intros [key storageKey] _. cbn. apply Is_true_true_2.
    now apply loadFromStorage_wf.
Qed.

(** Importing what was exported from [store] into [target] gives every
    category the content it had in [store], provided the categories that were
    empty in [store] are empty in [target]. *)
Lemma import_of_export store target :
  (∀ key storageKey, (key, storageKey) ∈ STORAGE_KEYS →
     loadFromStorage storageKey JNull store = JNull →
     loadFromStorage storageKey JNull target = JNull) →
  ∃ store', importAllData (exportAllData store) target = (true, store') ∧
    ∀ key storageKey, (key, storageKey) ∈ STORAGE_KEYS →
      loadFromStorage storageKey JNull store' = loadFromStorage storageKey JNull store.
Proof.
  intros Hempty. pose proof (exportData_wf store) as Hwf.
  unfold importAllData, exportAllData.
  rewrite (JSON_parse_stringify 2 _ Hwf).
  apply json_wf_members in Hwf as [Hkeys Hwf].
  cbn [Object_entries exportData]. eexists. split; [reflexivity|].
  intros key storageKey Hcategory.
  set (members := (_ <$> STORAGE_KEYS)) in *.
  assert ((key, loadFromStorage storageKey JNull store) ∈ members) as Hmember.
  { apply list_elem_of_fmap. exists (key, storageKey). now split. }
  destruct (import_entries_lookup members target storageKey Hkeys) as [Hwrite Hkeep].
  destruct (not_null (loadFromStorage storageKey JNull store)) eqn:Hcontent.
  - apply not_null_true in Hcontent.
    eapply loadFromStorage_saved; [eapply Hwf, Hmember|].
    eapply Hwrite; eauto. now apply STORAGE_KEYS_get_category.
  - assert (loadFromStorage storageKey JNull store = JNull) as Hnull.
    { destruct (loadFromStorage storageKey JNull store); cbn in Hcontent;
        congruence. }
    rewrite Hnull.
    transitivity (loadFromStorage storageKey JNull target);
      [|exact (Hempty key storageKey Hcategory Hnull)].
    apply loadFromStorage_ext, Hkeep.
    intros key' data Hin Hget.
    apply list_elem_of_fmap in Hin as ([key'' storageKey''] & [= -> ->] & Hin).
    apply STORAGE_KEYS_get_category in Hin.
    assert (storageKey'' = storageKey) as -> by congruence. exact Hnull.
Qed.

Lemma removeItems_lookup (keys : list string) (store : gmap string string) key :
  foldl (λ st key, removeItem key st) store keys !! key =
    if decide (key ∈ keys) then None else store !! key.
Proof.
  revert store. induction keys as [|k keys IH]; intros store; cbn [foldl].
  - rewrite decide_False; [reflexivity|]. apply not_elem_of_nil.
  - rewrite IH. unfold removeItem.
    destruct (decide (key ∈ keys)) as [Hin|Hnotin].
    + rewrite decide_True; [reflexivity|]. rewrite elem_of_cons. tauto.
    + destruct (decide (key = k)) as [->|Hne].
      * rewrite lookup_delete_eq, decide_True; [reflexivity|]. rewrite elem_of_cons. tauto.
      * rewrite lookup_delete_ne by congruence.
        rewrite decide_False; [reflexivity|].
        rewrite elem_of_cons. tauto.
Qed.

Lemma clearAppStorage_lookup store key storageKey :
  (key, storageKey) ∈ STORAGE_KEYS →
  snd (clearAppStorage store) !! storageKey = None.
Proof.
  intros Hin. apply (list_elem_of_fmap_2 snd) in Hin.
  unfold clearAppStorage. cbn [snd]. rewrite removeItems_lookup.
  now rewrite decide_True.
Qed.

(** C8.  Importing the document produced by [exportAllData] restores every
    storage category, the scenarios mapping among them, to the content it had
    when exported: both when imported into the same backend and when
    imported after the application's storage has been cleared, as the test
    suite does. *)
Theorem export_import_round_trip (store : gmap string string) :
  (∃ store',
     importAllData (exportAllData store) store = (true, store') ∧
     ∀ key storageKey, (key, storageKey) ∈ STORAGE_KEYS →
       loadFromStorage storageKey JNull store' =
       loadFromStorage storageKey JNull store) ∧
  (∃ store',
     importAllData (exportAllData store) (snd (clearAppStorage store))
       = (true, store') ∧
     ∀ key storageKey, (key, storageKey) ∈ STORAGE_KEYS →
       loadFromStorage storageKey JNull store' =
       loadFromStorage storageKey JNull store).
Proof.
  split; apply import_of_export.
  - auto.
  - intros key storageKey Hcategory _.
    unfold loadFromStorage, getItem.
    now rewrite (clearAppStorage_lookup store key storageKey Hcategory).
Qed.

End storage.

Lemma importAllData_cases_witness :
  Storage.importAllData (H := reference_JSON) "{not valid json}" test_store
    = (false, test_store) ∧
  ∃ store',
    Storage.importAllData (H := reference_JSON)
      (ReferenceCodec.stringify 0 test_document) test_store = (true, store') ∧
    Storage.loadFromStorage (H := reference_JSON) "dpo_cost_analysis" JNull store'
      = JObject [("total", JNumber (Q2Qc 500))] ∧
    store' !! "dpo_pricing_strategy" = test_store !! "dpo_pricing_strategy" ∧
    store' !! "NOTES" = test_store !! "NOTES".
Proof.
  split.
  - apply (proj1 (importAllData_cases (H := reference_JSON)
                    "{not valid json}" test_store)).
    reflexivity.
  - destruct (proj2 (importAllData_cases (H := reference_JSON)
                       (ReferenceCodec.stringify 0 test_document) test_store)
                _ (parse_stringify 0 test_document eq_refl))
      as (store' & Himport & Hwritten & Hkept).
    exists store'. split; [exact Himport|]. split; [|split].
    + apply (Hwritten "COST_ANALYSIS"); [repeat constructor ..|discriminate].
    + apply Hkept.
      * intros key data Hmember. unfold test_document in Hmember.
        rewrite !elem_of_cons, elem_of_nil in Hmember.
        destruct Hmember as [[= -> ->]|[[= -> ->]|[[= -> ->]|[]]]];
          apply (bool_decide_unpack _); vm_compute; exact I.
      * intros key data Hmember Hcategory. unfold test_document in Hmember.
        rewrite !elem_of_cons, elem_of_nil in Hmember.
        destruct Hmember as [[= -> ->]|[[= -> ->]|[[= -> ->]|[]]]];
          [|reflexivity|];
          apply STORAGE_KEYS_get_category in Hcategory;
          vm_compute in Hcategory; discriminate.
    + apply Hkept.
      * intros key data Hmember. unfold test_document in Hmember.
        rewrite !elem_of_cons, elem_of_nil in Hmember.
        destruct Hmember as [[= -> ->]|[[= -> ->]|[[= -> ->]|[]]]];
          apply (bool_decide_unpack _); vm_compute; exact I.
      * intros key data Hmember Hcategory. unfold test_document in Hmember.
        rewrite !elem_of_cons, elem_of_nil in Hmember.
        destruct Hmember as [[= -> ->]|[[= -> ->]|[[= -> ->]|[]]]];
          [|reflexivity|];
          apply STORAGE_KEYS_get_category in Hcategory;
          vm_compute in Hcategory; discriminate.
Defined.

Lemma export_import_round_trip_witness :
  ∃ store',
    Storage.importAllData (H := reference_JSON)
      (Storage.exportAllData (H := reference_JSON) test_store)
      (snd (Storage.clearAppStorage test_store)) = (true, store') ∧
    Storage.loadFromStorage (H := reference_JSON) "dpo_cost_analysis" JNull store'
      = JObject [("costs",
                  JArray [JObject [("name", JString "Materials");
                                   ("value", JNumber (Q2Qc 50))]])].
Proof.
  destruct (proj2 (export_import_round_trip (H := reference_JSON) test_store))
    as (store' & Himport & Hsame).
  exists store'. split; [exact Himport|].
  rewrite (Hsame "COST_ANALYSIS") by repeat constructor.
  apply (loadFromStorage_saved (H := reference_JSON) _ _ 0); reflexivity.
Defined.

(** * Further properties *)

(** ** Cost model: what is added, break-even, minimum viable price *)

Section cost_model_prices.
Import CostModel.

Lemma reduce_sum_snoc {A} (f : A → number) (l : list A) (x : A) :
  reduce_sum f (l ++ [x]) = js_add (reduce_sum f l) (f x).
Proof. unfold reduce_sum. apply (foldl_snoc (λ acc y, js_add acc (f y))). Qed.

(** X1.  Each [add...] method changes the total it belongs to and leaves the
    other two alone: a direct cost adds its amount to the total direct cost,
    a time cost adds rate x hours to the total time cost, and an indirect
    cost adds its monthly amount (a twelfth of a yearly one) to the sum that
    is divided by the expected volume. *)
Theorem added_cost_contributions (cm : CostModel.t)
    (name unit period : string) (amount rate hours : number) :
  (calculateTotalDirectCost (addDirectCost name amount unit cm)
     = js_add (calculateTotalDirectCost cm) amount ∧
   calculateTotalTimeCost (addDirectCost name amount unit cm)
     = calculateTotalTimeCost cm ∧
   calculateAllocatedIndirectCost (addDirectCost name amount unit cm)
     = calculateAllocatedIndirectCost cm) ∧
  (calculateTotalTimeCost (addTimeCost name rate hours cm)
     = js_add (calculateTotalTimeCost cm) (js_mul rate hours) ∧
   calculateTotalDirectCost (addTimeCost name rate hours cm)
     = calculateTotalDirectCost cm ∧
   calculateAllocatedIndirectCost (addTimeCost name rate hours cm)
     = calculateAllocatedIndirectCost cm) ∧
  (calculateAllocatedIndirectCost (addIndirectCost name amount period cm)
     = js_div
         (js_add (monthlyIndirectCosts cm)
                 (if decide (period = "year") then js_div amount (Fin 12) else amount))
         (expectedVolume cm) ∧
   calculateTotalDirectCost (addIndirectCost name amount period cm)
     = calculateTotalDirectCost cm ∧
   calculateTotalTimeCost (addIndirectCost name amount period cm)
     = calculateTotalTimeCost cm).
Proof.
  unfold calculateTotalDirectCost, calculateTotalTimeCost,
    calculateAllocatedIndirectCost, monthlyIndirectCosts.
  cbn [addDirectCost addTimeCost addIndirectCost directCosts timeCosts
       indirectCosts expectedVolume].
  rewrite !reduce_sum_snoc. repeat split.
Qed.

Lemma js_le_refl x : x ≠ NaN → js_le x x = true.
Proof. destruct x; cbn; try congruence. intros _. apply Qle_bool_refl. Qed.

(** X2.  At the break-even price, which is the total cost per unit, the
    break-even volume is +infinity (the price does not exceed the cost), and
    the margin is 0 unless the total cost is 0. *)
Theorem at_break_even_price (cm : CostModel.t) :
  (calculateTotalCostPerUnit cm ≠ NaN →
   calculateBreakEvenVolume (calculateBreakEvenPrice cm) cm = Infinity) ∧
  (∀ c : Q, calculateTotalCostPerUnit cm = Fin c → ¬ (c == 0)%Q →
     calculateMarginAtPrice (calculateBreakEvenPrice cm) cm ≡ Fin 0).
Proof.
  unfold calculateBreakEvenVolume, calculateMarginAtPrice, calculateBreakEvenPrice.
  split.
  - intros Hnumber. now rewrite js_le_refl.
  - intros c -> Hc. cbn [js_sub js_div].
    rewrite (proj2 (Qeq_bool_false c 0) Hc).
    unfold equiv, number_equiv. cbn [same]. field. exact Hc.
Qed.

Lemma at_break_even_price_witness :
  calculateBreakEvenVolume (calculateBreakEvenPrice test_costModel) test_costModel
    = Infinity ∧
  calculateMarginAtPrice (calculateBreakEvenPrice test_costModel) test_costModel
    ≡ Fin 0.
Proof.
  split.
  - apply (proj1 (at_break_even_price test_costModel)). vm_compute. discriminate.
  - eapply (proj2 (at_break_even_price test_costModel)).
    + vm_compute. reflexivity.
    + vm_compute. discriminate.
Defined.

(** X3.  The minimum viable price is the threshold of the target margin, up
    to the tolerance: for a total cost above 0 and of ordinary magnitude and
    a target margin in [0,1), a price that reaches the minimum viable price
    has a margin that is not below the target margin less the tolerance, and
    a price above 0 that stays below the minimum viable price has a margin
    that is not above the target margin plus the tolerance. *)
Theorem price_meets_target_margin (cm : CostModel.t) (c m p : Q) :
  calculateTotalCostPerUnit cm = Fin c → (0 < c)%Q → ordinary_magnitude c →
  targetMargin cm = Fin m → (0 <= m)%Q → (m < 1)%Q →
  (0 < p)%Q →
  (js_le (calculateMinimumViablePrice cm) (Fin p) = true →
   js_le (Fin (m - tolerance)) (calculateMarginAtPrice (Fin p) cm) = true) ∧
  (js_lt (Fin p) (calculateMinimumViablePrice cm) = true →
   js_le (calculateMarginAtPrice (Fin p) cm) (Fin (m + tolerance)) = true).
Proof.
  intros Hc Hc0 _ Hm Hm0 Hm1 Hp. pose proof tolerance_pos as Htolerance.
  unfold calculateMarginAtPrice, calculateMinimumViablePrice. rewrite Hc, Hm.
  cbn [js_sub js_div js_le js_lt].
  rewrite (proj2 (Qeq_bool_false p 0)) by lra.
  rewrite (proj2 (Qeq_bool_false (1 - m) 0)) by lra.
  cbn [js_le js_lt].
  set (q := (c / (1 - m))%Q).
  assert (q * (1 - m) == c)%Q as Hq by (unfold q; field; lra).
  assert (0 <= tolerance * p)%Q as Hslack by (apply Qmult_le_0_compat; lra).
  split.
  - intros Hreached%Qle_bool_iff. apply Qle_bool_iff.
    apply Qle_shift_div_l; [exact Hp|].
    assert (q * (1 - m) <= p * (1 - m))%Q by (apply Qmult_le_compat_r; lra).
    lra.
  - intros Hbelow%negb_true_iff%Qle_bool_false. apply Qle_bool_iff.
    apply Qle_shift_div_r; [exact Hp|].
    assert (p * (1 - m) < q * (1 - m))%Q by (apply Qmult_lt_compat_r; lra).
    lra.
Qed.

Lemma price_meets_target_margin_witness :
  js_le (Fin (0.30 - tolerance)) (calculateMarginAtPrice (Fin 1200) test_costModel)
  = true.
Proof.
  refine (proj1 (price_meets_target_margin test_costModel _ 0.30 1200
                   _ _ _ _ _ _ _) _).
  - vm_compute. reflexivity.
  - vm_compute. reflexivity.
  - split; vm_compute; discriminate.
  - reflexivity.
  - vm_compute. discriminate.
  - vm_compute. reflexivity.
  - vm_compute. reflexivity.
  - vm_compute. reflexivity.
Defined.
(** X4.  For a total cost that is not negative and a target margin in [0,1),
    the minimum viable price is not below the total cost per unit, and with
    a target margin of 0 it is the total cost per unit. *)
Theorem minimum_viable_price_covers_cost (cm : CostModel.t) (c m : Q) :
  calculateTotalCostPerUnit cm = Fin c → (0 <= c)%Q →
  targetMargin cm = Fin m → (0 <= m)%Q → (m < 1)%Q →
  js_le (calculateTotalCostPerUnit cm) (calculateMinimumViablePrice cm) = true ∧
  ((m == 0)%Q → calculateMinimumViablePrice cm ≡ calculateTotalCostPerUnit cm).
Proof.
  intros Hc Hc0 Hm Hm0 Hm1. unfold calculateMinimumViablePrice. rewrite Hc, Hm.
  cbn [js_sub js_div js_le].
  rewrite (proj2 (Qeq_bool_false (1 - m) 0)) by lra.
  cbn [js_le]. split.
  - apply Qle_bool_iff. apply Qle_shift_div_l; [lra|].
    assert (0 <= c * m)%Q by (apply Qmult_le_0_compat; lra). lra.
  - intros Hzero. unfold equiv, number_equiv. cbn [same]. rewrite Hzero. field.
Qed.

Lemma minimum_viable_price_covers_cost_witness :
  js_le (calculateTotalCostPerUnit test_costModel)
        (calculateMinimumViablePrice test_costModel) = true.
Proof.
  refine (proj1 (minimum_viable_price_covers_cost test_costModel _ _ _ _ _ _ _)).
  - vm_compute. reflexivity.
  - vm_compute. discriminate.
  - vm_compute. reflexivity.
  - vm_compute. discriminate.
  - vm_compute. reflexivity.
Defined.

End cost_model_prices.

(** ** Customer segments: identifiers, updates and removals *)

Section customer_segments.
Import CustomerSegmentModel.

Lemma seg_id_inj (j k : nat) : "seg_" +:+ pretty j = "seg_" +:+ pretty k → j = k.
Proof. cbn. intros [= H]. now apply pretty_nat_inj in H. Qed.

Lemma findIndex_None id m :
  findIndex id m = None ↔ id ∉ seg_id <$> segments m.
Proof.
  unfold findIndex. rewrite list_find_None, list.Forall_forall. split.
  - intros Hall [seg [-> Hin]]%list_elem_of_fmap. now apply (Hall seg).
  - intros Hnot seg Hin Heq. apply Hnot. rewrite <- Heq.
    now apply list_elem_of_fmap_2.
Qed.

Lemma findIndex_Some id m i seg :
  findIndex id m = Some (i, seg) →
  segments m !! i = Some seg ∧ seg_id seg = id ∧ (i < length (segments m))%nat.
Proof.
  unfold findIndex. intros (Hi & Hid & _)%list_find_Some.
  split; [exact Hi|]. split; [exact Hid|]. now apply lookup_lt_Some in Hi.
Qed.

(** X6.  [updateSegment] and [removeSegment] answer [false] and change
    nothing when no segment has the identifier; when one has, they answer
    [true], the update keeps the number of segments and the removal lowers it
    by one. *)
Theorem unknown_segment_is_reported (m : CustomerSegmentModel.t)
    (id : string) (data : SegmentData) :
  (id ∉ seg_id <$> segments m →
   updateSegment id data m = (false, m) ∧ removeSegment id m = (false, m)) ∧
  (id ∈ seg_id <$> segments m →
   fst (updateSegment id data m) = true ∧
   length (segments (snd (updateSegment id data m))) = length (segments m) ∧
   fst (removeSegment id m) = true ∧
   S (length (segments (snd (removeSegment id m)))) = length (segments m)).
Proof.
  unfold updateSegment, removeSegment. split.
  - intros Hnot. apply findIndex_None in Hnot. now rewrite Hnot.
  - intros Hin. destruct (findIndex id m) as [[i seg]|] eqn:Hfind.
    + apply findIndex_Some in Hfind as (Hi & _ & Hlt). cbn.
      rewrite length_insert, length_delete by eauto. repeat split. lia.
    + apply findIndex_None in Hfind. contradiction.
Qed.

Lemma unknown_segment_is_reported_witness :
  let m := snd (addSegment "Enterprise" (Fin 20) (Fin (-0.5)) "" new) in
  removeSegment "seg_7" m = (false, m) ∧
  fst (removeSegment "seg_1" m) = true ∧
  S (length (segments (snd (removeSegment "seg_1" m)))) = length (segments m).
Proof.
  intros m.
  pose (data := {| sd_id := None; sd_name := Some "Large accounts";
                   sd_size := None; sd_priceElasticity := None;
                   sd_description := None |}).
  split.
  - apply (proj1 (unknown_segment_is_reported m "seg_7" data)).
    apply (bool_decide_unpack _). vm_compute. exact I.
  - apply (proj2 (unknown_segment_is_reported m "seg_1" data)).
    apply (bool_decide_unpack _). vm_compute. exact I.
Defined.
Lemma well_numbered_new : well_numbered CustomerSegmentModel.new.
Proof. split; constructor. Qed.

Lemma next_id_is_fresh (m : CustomerSegmentModel.t) :
  well_numbered m → "seg_" +:+ pretty (nextId m) ∉ seg_id <$> segments m.
Proof.
  intros [_ Hissued] [seg [Hid Hin]]%list_elem_of_fmap.
  rewrite list.Forall_forall in Hissued.
  destruct (Hissued seg Hin) as (k & Hk & Hseg).
  rewrite Hseg in Hid. apply seg_id_inj in Hid. lia.
Qed.

Lemma addSegment_well_numbered name size elasticity description
    (m : CustomerSegmentModel.t) :
  well_numbered m →
  well_numbered (snd (addSegment name size elasticity description m)).
Proof.
  intros Hm. pose proof (next_id_is_fresh m Hm) as Hfresh.
  destruct Hm as [Hunique Hissued].
  unfold addSegment, well_numbered. cbn [snd segments nextId]. split.
  - rewrite fmap_app. apply list.NoDup_app. split; [exact Hunique|]. split.
    + intros id Hin Hlast. apply list_elem_of_singleton in Hlast. cbn in Hlast.
      subst id. contradiction.
    + apply NoDup_singleton.
  - apply Forall_app. split.
    + eapply list.Forall_impl; [exact Hissued|].
      intros seg (k & Hk & Hseg). exists k. split; [lia|exact Hseg].
    + apply Forall_singleton. exists (nextId m). split; [lia|reflexivity].
Qed.

(** X7.  The identifiers of the segments stay distinct.  In a model whose
    identifiers are distinct and were issued by the counter, [addSegment]
    returns an identifier that no segment has yet, and the model stays so
    after [addSegment], after [removeSegment], and after an [updateSegment]
    whose data carries no [id]. *)
Theorem segment_ids_stay_unique (m : CustomerSegmentModel.t) :
  well_numbered m →
  (∀ name size elasticity description,
     (fst (addSegment name size elasticity description m)
        ∉ seg_id <$> segments m) ∧
     well_numbered (snd (addSegment name size elasticity description m))) ∧
  (∀ id, well_numbered (snd (removeSegment id m))) ∧
  (∀ id data, sd_id data = None → well_numbered (snd (updateSegment id data m))).
Proof.
  intros Hm. pose proof (next_id_is_fresh m Hm) as Hfresh.
  destruct Hm as [Hunique Hissued].
  split; [|split].
  - intros name size elasticity description. split; [exact Hfresh|].
    apply addSegment_well_numbered. now split.
  - intros id. unfold removeSegment.
    destruct (findIndex id m) as [[i seg]|]; [|now split].
    unfold well_numbered. cbn [snd segments nextId]. split.
    + rewrite list_fmap_delete.
      eapply sublist_NoDup; [exact Hunique|apply sublist_delete].
    + now apply Forall_delete.
  - intros id data Hkeep. unfold updateSegment.
    destruct (findIndex id m) as [[i seg]|] eqn:Hfind; [|now split].
    apply findIndex_Some in Hfind as (Hi & Hid & _).
    unfold well_numbered. cbn [snd segments nextId].
    assert (seg_id (spread seg data) = seg_id seg) as Hsame
      by (unfold spread; cbn; now rewrite Hkeep).
    split.
    + rewrite list_fmap_insert, Hsame, list_insert_id; [exact Hunique|].
      now rewrite list_lookup_fmap, Hi.
    + apply Forall_insert; [exact Hissued|]. rewrite Hsame.
      rewrite list.Forall_forall in Hissued. apply Hissued.
      eapply list_elem_of_lookup_2, Hi.
Qed.

Lemma segment_ids_stay_unique_witness :
  let m := snd (addSegment "Enterprise" (Fin 20) (Fin (-0.5)) "" new) in
  (fst (addSegment "Startups" (Fin 80) (Fin (-1.5)) "" m) ∉ seg_id <$> segments m) ∧
  well_numbered (snd (addSegment "Startups" (Fin 80) (Fin (-1.5)) "" m)) ∧
  well_numbered (snd (removeSegment "seg_1" m)).
Proof.
  intros m.
  assert (well_numbered m) as Hm
    by apply addSegment_well_numbered, well_numbered_new.
  split; [|split].
  - apply (proj1 (segment_ids_stay_unique m Hm)).
  - apply (proj1 (segment_ids_stay_unique m Hm)).
  - apply (proj1 (proj2 (segment_ids_stay_unique m Hm))).
Defined.

(** X8.  Removing the segment that [addSegment] has just added gives back the
    segments there were before; only the counter has moved on, so the
    identifier is not issued again. *)
Theorem removing_the_segment_just_added (m : CustomerSegmentModel.t)
    (name description : string) (size elasticity : number) :
  well_numbered m →
  removeSegment (fst (addSegment name size elasticity description m))
                (snd (addSegment name size elasticity description m))
  = (true, {| segments := segments m; nextId := S (nextId m) |}).
Proof.
  intros Hm. pose proof (next_id_is_fresh m Hm) as Hfresh.
  unfold removeSegment, findIndex. cbn [addSegment fst snd segments nextId] in *.
  set (id := "seg_" +:+ pretty (nextId m)) in *.
  set (seg := {| seg_id := id; seg_name := name; seg_size := size;
                 seg_priceElasticity := elasticity;
                 seg_description := description |}).
  assert (list_find (λ s, seg_id s = id) (segments m ++ [seg])
          = Some (length (segments m), seg)) as ->.
  { apply list_find_Some. split; [|split].
    - rewrite lookup_app_r, Nat.sub_diag by lia. reflexivity.
    - reflexivity.
    - intros j other Hj Hlt Hid. apply Hfresh.
      rewrite lookup_app_l in Hj by exact Hlt.
      apply list_elem_of_fmap. exists other. split; [now symmetry|].
      eapply list_elem_of_lookup_2, Hj. }
  now rewrite delete_middle, app_nil_r.
Qed.

Lemma removing_the_segment_just_added_witness :
  let m := snd (addSegment "Enterprise" (Fin 20) (Fin (-0.5)) "" new) in
  removeSegment (fst (addSegment "Startups" (Fin 80) (Fin (-1.5)) "" m))
                (snd (addSegment "Startups" (Fin 80) (Fin (-1.5)) "" m))
  = (true, {| segments := segments m; nextId := 3 |}).
Proof.
  intros m.
  apply (removing_the_segment_just_added m "Startups" "" (Fin 80) (Fin (-1.5))).
  apply addSegment_well_numbered, well_numbered_new.
Defined.


(** The signs of a sum of weights and of the sum of values times weights, for
    values that are not positive and weights that are not negative. *)
Lemma weighted_sum_signs {A} (weight value : A → number) (l : list A) :
  Forall (λ x, ∃ s v : Q, weight x = Fin s ∧ (0 <= s)%Q ∧
                          value x = Fin v ∧ (v <= 0)%Q) l →
  ∃ total weighted : Q,
    reduce_sum weight l = Fin total ∧
    reduce_sum (λ x, js_mul (value x) (weight x)) l = Fin weighted ∧
    (0 <= total)%Q ∧ (weighted <= 0)%Q.
Proof.
  induction l as [|x l IH] using rev_ind; intros Hall.
  - exists 0%Q, 0%Q. repeat split; lra.
  - apply list.Forall_app in Hall as [Hl Hx]. rewrite list.Forall_singleton in Hx.
    destruct (IH Hl) as (total & weighted & Htotal & Hweighted & Ht & Hw).
    destruct Hx as (s & v & Hs & Hs0 & Hv & Hv0).
    rewrite !reduce_sum_snoc, Htotal, Hweighted, Hs, Hv. cbn [js_mul js_add].
    exists (total + s)%Q, (weighted + v * s)%Q. split; [reflexivity|].
    split; [reflexivity|].
    assert (v * s <= 0 * s)%Q by (apply Qmult_le_compat_r; assumption).
    split; lra.
Qed.

(** X9.  Segments that are price sensitive give a weighted elasticity that is
    not positive: when every size is a finite number that is not negative and
    every elasticity a finite number that is not positive, the two sums are
    finite and the sum of the sizes is not 0, the result is at most 0. *)
Theorem weighted_elasticity_is_not_positive
    (m : CustomerSegmentModel.t) (total weighted : Q) :
  Forall (λ seg, ∃ s e : Q, seg_size seg = Fin s ∧ (0 <= s)%Q ∧
                            seg_priceElasticity seg = Fin e ∧ (e <= 0)%Q)
         (segments m) →
  reduce_sum seg_size (segments m) = Fin total → ¬ (total == 0)%Q →
  reduce_sum (λ seg, js_mul (seg_priceElasticity seg) (seg_size seg)) (segments m)
    = Fin weighted →
  js_le (calculateWeightedElasticity m) (Fin 0) = true.
Proof.
  intros Hall Htotal Hsize Hweighted.
  destruct (weighted_sum_signs seg_size seg_priceElasticity _ Hall)
    as (t & w & Ht & Hw & Ht0 & Hw0).
  rewrite Htotal in Ht. rewrite Hweighted in Hw.
  injection Ht as <-. injection Hw as <-.
  unfold calculateWeightedElasticity.
  destruct (segments m) as [|seg rest] eqn:E.
  { exfalso. apply Hsize. cbn in Htotal. now injection Htotal as <-. }
  rewrite Htotal, Hweighted. cbn [js_div].
  rewrite (proj2 (Qeq_bool_false total 0) Hsize). cbn [js_le].
  apply Qle_bool_iff. apply Qle_shift_div_r; lra.
Qed.

Lemma weighted_elasticity_is_not_positive_witness :
  let m := snd (addSegment "Startups" (Fin 80) (Fin (-1.5)) ""
                  (snd (addSegment "Enterprise" (Fin 20) (Fin (-0.5)) "" new))) in
  js_le (calculateWeightedElasticity m) (Fin 0) = true.
Proof.
  intros m. eapply (weighted_elasticity_is_not_positive m).
  - repeat apply Forall_cons; [| |apply Forall_nil].
    + exists 20%Q, (-0.5)%Q. repeat split; vm_compute; discriminate.
    + exists 80%Q, (-1.5)%Q. repeat split; vm_compute; discriminate.
  - vm_compute. reflexivity.
  - vm_compute. discriminate.
  - vm_compute. reflexivity.
Defined.

End customer_segments.

(** ** Pricing model: strategy prices, confidence, rounding *)

Section pricing_strategies.
Import PricingModel.

(** X11.  The value-based price is the cost-plus price when there are no
    competitors or no value factors; otherwise it is never below the minimum
    viable price. *)
Theorem value_based_price_cases (pm : PricingModel.t) :
  (competitors pm = [] ∨ valueFactors pm = [] →
   calculateValueBasedPrice pm = calculateCostPlusPrice (Fin 1) pm) ∧
  (competitors pm ≠ [] → valueFactors pm ≠ [] →
   js_lt (calculateValueBasedPrice pm)
         (CostModel.calculateMinimumViablePrice (costModel pm)) = false ∧
   (calculateValueBasedPrice pm ≠ NaN →
    js_le (CostModel.calculateMinimumViablePrice (costModel pm))
          (calculateValueBasedPrice pm) = true)).
Proof.
  unfold calculateValueBasedPrice.
  destruct (competitors pm) as [|competitor rest] eqn:Ec;
    destruct (valueFactors pm) as [|factor factors] eqn:Ev.
  - split; [reflexivity|congruence].
  - split; [reflexivity|congruence].
  - split; [reflexivity|congruence].
  - split; [intros [|]; discriminate|]. intros _ _. split.
    + apply js_lt_Math_max.
    + intros Hnumber. apply js_le_Math_max; intros Hnan; apply Hnumber.
      * now rewrite Hnan.
      * rewrite Hnan. now destruct (js_mul _ _).
Qed.

Lemma value_based_price_cases_witness :
  calculateValueBasedPrice (new test_costModel)
    = calculateCostPlusPrice (Fin 1) (new test_costModel) ∧
  js_le (CostModel.calculateMinimumViablePrice (costModel test_pricingModel))
        (calculateValueBasedPrice test_pricingModel) = true.
Proof.
  split.
  - apply (proj1 (value_based_price_cases (new test_costModel))). now left.
  - apply (proj2 (value_based_price_cases test_pricingModel)).
    + discriminate.
    + discriminate.
    + vm_compute. discriminate.
Defined.

(** X12.  With a minimum viable price that is finite and not negative, the
    cost-plus price is not above the minimum viable price for the budget
    position, is the minimum viable price for mid-market, and is not below it
    for premium. *)
Theorem cost_plus_price_by_position (pm : PricingModel.t) (p : Q) :
  CostModel.calculateMinimumViablePrice (costModel pm) = Fin p → (0 <= p)%Q →
  match marketPosition pm with
  | budget =>
      js_le (calculateCostPlusPrice (Fin 1) pm)
            (CostModel.calculateMinimumViablePrice (costModel pm)) = true
  | mid_market =>
      calculateCostPlusPrice (Fin 1) pm ≡
      CostModel.calculateMinimumViablePrice (costModel pm)
  | premium =>
      js_le (CostModel.calculateMinimumViablePrice (costModel pm))
            (calculateCostPlusPrice (Fin 1) pm) = true
  end.
Proof.
  intros Hp Hp0. unfold calculateCostPlusPrice. rewrite Hp.
  unfold equiv, number_equiv.
  destruct (marketPosition pm); cbn [costPlus_positionMultipliers js_mul same js_le].
  - apply Qle_bool_iff. change 0.9%Q with (9 # 10)%Q. lra.
  - ring.
  - apply Qle_bool_iff. change 1.2%Q with (12 # 10)%Q. lra.
Qed.

Lemma cost_plus_price_by_position_witness :
  let pm := snd (setMarketPosition "budget" test_pricingModel) in
  js_le (calculateCostPlusPrice (Fin 1) pm)
        (CostModel.calculateMinimumViablePrice (costModel pm)) = true.
Proof.
  intros pm.
  refine (cost_plus_price_by_position pm _ _ _).
  - vm_compute. reflexivity.
  - vm_compute. discriminate.
Defined.

(** X13.  Whatever the strategy asked for and whatever the model holds, the
    confidence level of a recommendation is a number between 0.4 and 0.8. *)
Theorem confidence_level_range (pm : PricingModel.t) (strategy : string) :
  ∃ q : Q, confidenceLevel (getPriceRecommendation strategy pm) = Fin q ∧
           (0.4 <= q)%Q ∧ (q <= 0.8)%Q.
Proof.
  unfold getPriceRecommendation, strategy_case.
  repeat case_decide; cbn [confidenceLevel];
    eexists; (split; [reflexivity|]); split; vm_compute; discriminate.
Qed.

(** The fields of a recommendation, from the price that the [switch]
    assigned. *)
Lemma recommendation_fields (pm : PricingModel.t) (strategy : string) :
  price (getPriceRecommendation strategy pm)
    = round_to_cents (strategy_case strategy pm).1.1 ∧
  margin (getPriceRecommendation strategy pm)
    = CostModel.calculateMarginAtPrice (strategy_case strategy pm).1.1
        (costModel pm) ∧
  breakEvenVolume (getPriceRecommendation strategy pm)
    = CostModel.calculateBreakEvenVolume (strategy_case strategy pm).1.1
        (costModel pm).
Proof.
  unfold getPriceRecommendation.
  destruct (strategy_case strategy pm) as [[unrounded explanation] confidence].
  repeat split.
Qed.

(** X14.  Without competitors the 'competitor' and the 'value' recommendation
    fall back to the cost-plus price: their price, margin and break-even
    volume are those of the 'cost-plus' recommendation. *)
Theorem strategies_agree_without_competitors
    (pm : PricingModel.t) (strategy : string) :
  competitors pm = [] →
  strategy = "competitor" ∨ strategy = "value" →
  price (getPriceRecommendation strategy pm)
    = price (getPriceRecommendation "cost-plus" pm) ∧
  margin (getPriceRecommendation strategy pm)
    = margin (getPriceRecommendation "cost-plus" pm) ∧
  breakEvenVolume (getPriceRecommendation strategy pm)
    = breakEvenVolume (getPriceRecommendation "cost-plus" pm).
Proof.
  intros Hnone Hstrategy.
  assert (calculateCompetitorIndexedPrice pm = calculateCostPlusPrice (Fin 1) pm)
    as Hcompetitor by (unfold calculateCompetitorIndexedPrice; now rewrite Hnone).
  assert (calculateValueBasedPrice pm = calculateCostPlusPrice (Fin 1) pm)
    as Hvalue by (unfold calculateValueBasedPrice; now rewrite Hnone).
  assert ((strategy_case strategy pm).1.1 = (strategy_case "cost-plus" pm).1.1)
    as Hsame by (destruct Hstrategy as [-> | ->]; [exact Hcompetitor|exact Hvalue]).
  destruct (recommendation_fields pm strategy) as (-> & -> & ->).
  destruct (recommendation_fields pm "cost-plus") as (-> & -> & ->).
  rewrite Hsame. repeat split.
Qed.

Lemma strategies_agree_without_competitors_witness :
  price (getPriceRecommendation "value" (new test_costModel))
  = price (getPriceRecommendation "cost-plus" (new test_costModel)).
Proof.
  apply (strategies_agree_without_competitors (new test_costModel) "value").
  - reflexivity.
  - now right.
Defined.

(** X15.  For every strategy the recommended price is a number of cents: when
    the strategy price times 100 is finite, the recommended price is the
    quotient by 100 of the integer nearest to that product, a tie going
    up. *)
Theorem recommended_price_is_in_cents (pm : PricingModel.t) (strategy : string) :
  ∀ y : Q,
    js_mul (strategy_case strategy pm).1.1 (Fin 100) = Fin y →
    ∃ n : Z,
      price (getPriceRecommendation strategy pm)
        = js_div (Fin (inject_Z n)) (Fin 100) ∧
      (inject_Z n - (1 # 2) <= y)%Q ∧ (y < inject_Z n + (1 # 2))%Q.
Proof.
  intros y. unfold getPriceRecommendation.
  destruct (strategy_case strategy pm) as [[unrounded explanation] confidence].
  cbn [fst price]. apply round_to_cents_nearest.
Qed.

Lemma recommended_price_is_in_cents_witness :
  ∃ n : Z,
    price (getPriceRecommendation "cost-plus" test_pricingModel)
      = js_div (Fin (inject_Z n)) (Fin 100) ∧
    (inject_Z n - (1 # 2) <= 750000 # 7)%Q ∧ (750000 # 7 < inject_Z n + (1 # 2))%Q.
Proof.
  edestruct (recommended_price_is_in_cents test_pricingModel "cost-plus")
    as (n & Hprice & Hlow & Hhigh); [vm_compute; reflexivity|].
  exists n. split; [exact Hprice|]. split; lra.
Defined.

Lemma margin_of_scaled_minimum (c m k : Q) :
  ¬ (c == 0)%Q → (m < 1)%Q → ¬ (k == 0)%Q →
  ¬ (c / (1 - m) * k * 1 == 0)%Q ∧
  ((c / (1 - m) * k * 1 - c) / (c / (1 - m) * k * 1) == 1 - (1 - m) / k)%Q.
Proof.
  intros Hc Hm Hk.
  assert (¬ (1 - m == 0)%Q) as Hden by lra.
  assert (¬ (c / (1 - m) * k * 1 == 0)%Q) as Hx.
  { intros Hzero. apply Hc.
    assert (c == c / (1 - m) * k * 1 * ((1 - m) / k))%Q as -> by (field; auto).
    rewrite Hzero. ring. }
  split; [exact Hx|]. field. auto.
Qed.

(** X16.  The margin reported with the cost-plus recommendation, for a total
    cost of ordinary magnitude and a target margin m in [0,1), is within the
    tolerance of 1 - (1 - m) / k, where k is the multiplier of the market
    position (budget 0.9, mid-market 1.0, premium 1.2). *)
Theorem cost_plus_margin_by_position (pm : PricingModel.t) (c m : Q) :
  CostModel.calculateTotalCostPerUnit (costModel pm) = Fin c →
  ordinary_magnitude c →
  CostModel.targetMargin (costModel pm) = Fin m → (0 <= m)%Q → (m < 1)%Q →
  ∃ r : Q,
    margin (getPriceRecommendation "cost-plus" pm) = Fin r ∧
    (Qabs (r - (1 - (1 - m) / match marketPosition pm with
                               | budget => 0.9
                               | mid_market => 1.0
                               | premium => 1.2
                               end)) <= tolerance)%Q.
Proof.
  intros Hc Hordinary Hm _ Hm1.
  pose proof (ordinary_magnitude_nonzero c Hordinary) as Hc0.
  change (margin (getPriceRecommendation "cost-plus" pm))
    with (CostModel.calculateMarginAtPrice (calculateCostPlusPrice (Fin 1) pm)
            (costModel pm)).
  unfold CostModel.calculateMarginAtPrice, calculateCostPlusPrice,
    CostModel.calculateMinimumViablePrice.
  rewrite Hc, Hm. cbn [js_sub js_div].
  rewrite (proj2 (Qeq_bool_false (1 - m) 0)) by lra.
  destruct (marketPosition pm);
    cbn [costPlus_positionMultipliers js_mul js_sub js_div];
    match goal with
    | |- context [Qeq_bool (c / (1 - m) * ?k * 1) 0] =>
        destruct (margin_of_scaled_minimum c m k Hc0 Hm1) as [Hx Hmargin];
        [ vm_compute; discriminate
        | rewrite (proj2 (Qeq_bool_false _ 0) Hx); eexists;
          split; [reflexivity|]; rewrite Hmargin;
          match goal with
          | |- (Qabs (?t - ?t) <= _)%Q =>
              assert (t - t == 0)%Q as -> by ring; vm_compute; discriminate
          end ]
    end.
Qed.

Lemma cost_plus_margin_by_position_witness :
  let pm := snd (setMarketPosition "premium" test_pricingModel) in
  ∃ r : Q,
    margin (getPriceRecommendation "cost-plus" pm) = Fin r ∧
    (Qabs (r - (1 - (1 - 0.30) / 1.2)) <= tolerance)%Q.
Proof.
  intros pm. refine (cost_plus_margin_by_position pm _ 0.30 _ _ _ _ _).
  - vm_compute. reflexivity.
  - split; vm_compute; discriminate.
  - reflexivity.
  - vm_compute. discriminate.
  - vm_compute. reflexivity.
Defined.

End pricing_strategies.

(** ** Storage utilities: saving, removing, clearing, export and import *)

Section storage_slots.
Import Storage.
Context `{JSON}.

(** X17.  What [saveToStorage] saved under a key is what [loadFromStorage]
    loads from it, whatever was stored there before, and the content of the
    other keys is as before.  The key is not a name of [Object.prototype]:
    the mock keeps its items in a plain object, and an item saved as
    [__proto__] would not be read back. *)
Theorem saved_data_is_loaded (key : string) (data defaultValue : json)
    (store : gmap string string) :
  key ∉ Object_prototype →
  json_wf data = true →
  fst (saveToStorage key data store) = true ∧
  loadFromStorage key defaultValue (snd (saveToStorage key data store)) = data ∧
  (∀ other, other ≠ key →
     loadFromStorage other defaultValue (snd (saveToStorage key data store))
     = loadFromStorage other defaultValue store).
Proof.
  intros _ Hwf. split; [reflexivity|]. split.
  - apply (loadFromStorage_saved _ _ 0); [exact Hwf|].
    unfold saveToStorage, setItem. cbn [snd]. apply lookup_insert_eq.
  - intros other Hne. apply loadFromStorage_ext.
    unfold saveToStorage, setItem. cbn [snd]. now rewrite lookup_insert_ne.
Qed.

(** X18.  After [removeFromStorage] a load from the key gives the default
    value, and the content of the other keys is as before. *)
Theorem removed_data_loads_default (key : string) (defaultValue : json)
    (store : gmap string string) :
  fst (removeFromStorage key store) = true ∧
  loadFromStorage key defaultValue (snd (removeFromStorage key store))
    = defaultValue ∧
  (∀ other, other ≠ key →
     loadFromStorage other defaultValue (snd (removeFromStorage key store))
     = loadFromStorage other defaultValue store).
Proof.
  split; [reflexivity|]. unfold removeFromStorage, removeItem. cbn [snd]. split.
  - unfold loadFromStorage, getItem. now rewrite lookup_delete_eq.
  - intros other Hne. apply loadFromStorage_ext. now rewrite lookup_delete_ne.
Qed.

(** X19.  [clearAppStorage] succeeds; afterwards every category loads its
    default value, the keys that are not among the ten of [STORAGE_KEYS] hold
    what they held, and clearing again changes nothing. *)
Theorem cleared_storage (store : gmap string string) :
  fst (clearAppStorage store) = true ∧
  (∀ key storageKey defaultValue, (key, storageKey) ∈ STORAGE_KEYS →
     loadFromStorage storageKey defaultValue (snd (clearAppStorage store))
     = defaultValue) ∧
  (∀ other, other ∉ STORAGE_KEYS.*2 →
     snd (clearAppStorage store) !! other = store !! other) ∧
  clearAppStorage (snd (clearAppStorage store)) = clearAppStorage store.
Proof.
  split; [reflexivity|]. split; [|split].
  - intros key storageKey defaultValue Hcategory.
    unfold loadFromStorage, getItem.
    now rewrite (clearAppStorage_lookup store key storageKey Hcategory).
  - intros other Hother. unfold clearAppStorage. cbn [snd].
    rewrite removeItems_lookup. now rewrite decide_False.
  - unfold clearAppStorage. cbn [snd]. f_equal. apply map_eq. intros key.
    rewrite !removeItems_lookup. now destruct (decide _).
Qed.

(** X20.  The text returned by [exportAllData] is JSON for an object with one
    member per category of [STORAGE_KEYS], in their order, each holding what
    [loadFromStorage] gives for the category, [null] where nothing is
    stored. *)
Theorem exported_document_shape (store : gmap string string) :
  ∃ members,
    JSON_parse (exportAllData store) = Some (JObject members) ∧
    members.*1 = STORAGE_KEYS.*1 ∧
    (∀ key storageKey, (key, storageKey) ∈ STORAGE_KEYS →
       (key, loadFromStorage storageKey JNull store) ∈ members).
Proof.
  eexists. split; [|split].
  - unfold exportAllData. apply JSON_parse_stringify, exportData_wf.
  - rewrite <- list_fmap_compose. apply list_fmap_ext. now intros _ [key storageKey] _.
  - intros key storageKey Hcategory. apply list_elem_of_fmap.
    exists (key, storageKey). now split.
Qed.

Lemma import_entries_slot entries store slot :
  foldl import_entry store entries !! slot
  = foldl (slot_after slot) (store !! slot) entries.
Proof.
  revert store. induction entries as [|[key data] entries IH]; intros store.
  - reflexivity.
  - cbn [foldl]. rewrite IH, import_entry_lookup. reflexivity.
Qed.

Lemma slot_after_absorbs entries slot :
  (∀ content, foldl (slot_after slot) content entries = content) ∨
  (∃ text, ∀ content, foldl (slot_after slot) content entries = Some text).
Proof.
  induction entries as [|[key data] entries IH] using rev_ind.
  - left. reflexivity.
  - destruct (bool_decide (STORAGE_KEYS_get key = Some slot) && not_null data) eqn:E.
    + right. eexists. intros content. rewrite foldl_snoc.
      unfold slot_after at 1. cbn [fst snd]. now rewrite E.
    + destruct IH as [IH|[text IH]]; [left|right; exists text]; intros content;
        rewrite foldl_snoc; unfold slot_after at 1; cbn [fst snd]; rewrite E;
        apply IH.
Qed.

(** X21.  Importing the same text a second time changes nothing: the result
    and the stored content are those of the first import. *)
Theorem import_is_idempotent (jsonData : string) (store : gmap string string) :
  importAllData jsonData (snd (importAllData jsonData store))
  = importAllData jsonData store.
Proof.
  unfold importAllData.
  destruct (JSON_parse jsonData) as [importData|]; [|reflexivity].
  destruct (Object_entries importData) as [entries|]; [|reflexivity].
  cbn [snd]. f_equal. apply map_eq. intros slot.
  rewrite !import_entries_slot.
  destruct (slot_after_absorbs entries slot) as [Hsame|[text Hsame]];
    now rewrite !Hsame.
Qed.

(** X22.  [importAllData] answers [false] exactly when the text is not JSON or
    is the JSON text of [null], and then the storage is untouched. *)
Theorem failed_import_writes_nothing (jsonData : string) (store : gmap string string) :
  (fst (importAllData jsonData store) = false →
   snd (importAllData jsonData store) = store) ∧
  (fst (importAllData jsonData store) = false ↔
   JSON_parse jsonData = None ∨ JSON_parse jsonData = Some JNull).
Proof.
  unfold importAllData.
  destruct (JSON_parse jsonData) as [importData|]; [|cbn; tauto].
  destruct importData; cbn; split; try tauto; try discriminate;
    split; try discriminate; intros [|]; discriminate.
Qed.

End storage_slots.

Lemma saved_data_is_loaded_witness :
  Storage.loadFromStorage (H := reference_JSON) "dpo_settings" JNull
    (snd (Storage.saveToStorage (H := reference_JSON) "dpo_settings"
            (JObject [("currency", JString "USD")]) test_store))
  = JObject [("currency", JString "USD")].
Proof.
  apply (saved_data_is_loaded (H := reference_JSON) "dpo_settings"
           (JObject [("currency", JString "USD")]) JNull test_store).
  - apply (bool_decide_unpack _). vm_compute. exact I.
  - reflexivity.
Defined.

Lemma failed_import_writes_nothing_witness :
  snd (Storage.importAllData (H := reference_JSON) "{not valid json}" test_store)
  = test_store.
Proof.
  apply (proj1 (failed_import_writes_nothing (H := reference_JSON)
                  "{not valid json}" test_store)).
  reflexivity.
Defined.

(** ** Members of a JSON object *)

Lemma get_member_None name members :
  get_member name members = None ↔ name ∉ members.*1.
Proof.
  induction members as [|[key x] rest IH]; cbn.
  - split; [intros _; apply not_elem_of_nil|reflexivity].
  - rewrite not_elem_of_cons. case_decide; subst.
    + split; [discriminate|]. intros [? _]. congruence.
    + rewrite IH. split; [intros ?; split; congruence|tauto].
Qed.

Lemma replace_member_keys name x members :
  (replace_member name x members).*1 = members.*1.
Proof.
  induction members as [|[key y] rest IH]; cbn; [reflexivity|].
  case_decide; cbn; [reflexivity|]. now rewrite IH.
Qed.

Lemma get_member_replace name x members other :
  get_member other (replace_member name x members)
  = if decide (other = name)
    then match get_member name members with Some _ => Some x | None => None end
    else get_member other members.
Proof.
  induction members as [|[key y] rest IH]; cbn.
  - now case_decide.
  - destruct (decide (key = name)) as [->|Hkey]; cbn.
    + destruct (decide (name = other)) as [<-|Hother].
      * now rewrite decide_True.
      * rewrite decide_False by congruence. reflexivity.
    + destruct (decide (key = other)) as [<-|Hother].
      * rewrite decide_False by congruence. reflexivity.
      * exact IH.
Qed.

Lemma insert_index_keys i name x members :
  (insert_index i name x members).*1 ≡ₚ name :: members.*1.
Proof.
  induction members as [|[key y] rest IH]; cbn; [reflexivity|].
  destruct (array_index key) as [j|]; [|reflexivity].
  destruct (decide (j < i)); [|reflexivity]. cbn. rewrite IH. apply Permutation_swap.
Qed.

Lemma get_member_insert_index i name x members other :
  get_member name members = None →
  get_member other (insert_index i name x members)
  = if decide (other = name) then Some x else get_member other members.
Proof.
  induction members as [|[key y] rest IH]; cbn; intros Hnone.
  - destruct (decide (name = other)) as [<-|?].
    + now rewrite decide_True.
    + now rewrite decide_False by congruence.
  - destruct (decide (key = name)) as [->|Hkey]; [discriminate|].
    assert (get_member other ((name, x) :: (key, y) :: rest)
            = if decide (other = name) then Some x
              else if decide (key = other) then Some y else get_member other rest)
      as Hfront.
    { cbn. destruct (decide (name = other)) as [<-|?].
      - now rewrite decide_True.
      - now rewrite (decide_False (P := other = name)) by congruence. }
    destruct (array_index key) as [j|]; [|exact Hfront].
    destruct (decide (j < i)); [|exact Hfront]. cbn. rewrite (IH Hnone).
    destruct (decide (key = other)) as [<-|?]; [|reflexivity].
    now rewrite (decide_False (P := key = name)) by congruence.
Qed.

Lemma get_member_app name members extra :
  get_member name (members ++ extra)
  = match get_member name members with
    | Some x => Some x
    | None => get_member name extra
    end.
Proof.
  induction members as [|[key y] rest IH]; cbn; [reflexivity|].
  now case_decide.
Qed.

(** Reading after an assignment. *)
Lemma get_member_set_member name x members other :
  get_member other (set_member name x members)
  = if decide (other = name) then Some x else get_member other members.
Proof.
  unfold set_member. destruct (get_member name members) as [y|] eqn:Hget.
  - rewrite get_member_replace, Hget. reflexivity.
  - destruct (array_index name) as [i|].
    + now apply get_member_insert_index.
    + rewrite get_member_app. cbn.
      destruct (decide (other = name)) as [->|Hne].
      * now rewrite Hget, decide_True.
      * rewrite decide_False by congruence. now destruct (get_member other members).
Qed.

Lemma set_member_keys name x members :
  (set_member name x members).*1 ≡ₚ
  match get_member name members with
  | Some _ => members.*1
  | None => name :: members.*1
  end.
Proof.
  unfold set_member. destruct (get_member name members) as [y|] eqn:Hget.
  - now rewrite replace_member_keys.
  - destruct (array_index name) as [i|].
    + apply insert_index_keys.
    + rewrite fmap_app. cbn. symmetry. apply Permutation_cons_append.
Qed.

Lemma set_member_NoDup name x members :
  NoDup members.*1 → NoDup (set_member name x members).*1.
Proof.
  intros Hnodup. rewrite set_member_keys.
  destruct (get_member name members) eqn:Hget; [exact Hnodup|].
  apply list.NoDup_cons. split; [|exact Hnodup]. now apply get_member_None.
Qed.

Lemma set_member_elem_of name x members key y :
  (key, y) ∈ set_member name x members → y = x ∨ (key, y) ∈ members.
Proof.
  unfold set_member. destruct (get_member name members) as [z|].
  - induction members as [|[k v] rest IH]; cbn; [intros []%elem_of_nil|].
    case_decide; rewrite !elem_of_cons.
    + intros [[= -> ->]|?]; auto.
    + intros [[= -> ->]|?]; [auto|]. destruct IH; auto.
  - destruct (array_index name) as [i|].
    + induction members as [|[k v] rest IH]; cbn.
      * rewrite elem_of_cons. intros [[= -> ->]|[]%elem_of_nil]. auto.
      * destruct (array_index k) as [j|]; [destruct (decide (j < i))|];
          rewrite !elem_of_cons.
        -- intros [[= -> ->]|?]; [auto|]. destruct IH; auto.
        -- intros [[= -> ->]|?]; auto.
        -- intros [[= -> ->]|?]; auto.
    + rewrite elem_of_app, elem_of_cons. intros [?|[[= -> ->]|[]%elem_of_nil]]; auto.
Qed.

Lemma remove_member_cons name key y rest :
  remove_member name ((key, y) :: rest)
  = if decide (key = name) then remove_member name rest
    else (key, y) :: remove_member name rest.
Proof.
  unfold remove_member. rewrite filter_cons. cbn [fst].
  destruct (decide (key = name)) as [->|Hkey].
  - now rewrite decide_False by tauto.
  - now rewrite decide_True.
Qed.

Lemma get_member_remove name members other :
  get_member other (remove_member name members)
  = if decide (other = name) then None else get_member other members.
Proof.
  induction members as [|[key y] rest IH].
  - cbn. now destruct (decide (other = name)).
  - rewrite remove_member_cons. cbn [get_member].
    destruct (decide (key = name)) as [->|Hkey].
    + rewrite IH. destruct (decide (other = name)) as [->|?]; [reflexivity|].
      now rewrite (decide_False (P := name = other)) by congruence.
    + cbn [get_member]. rewrite IH.
      destruct (decide (key = other)) as [<-|?]; [|reflexivity].
      now rewrite (decide_False (P := key = name)).
Qed.

Lemma remove_member_absent name members :
  get_member name members = None → remove_member name members = members.
Proof.
  induction members as [|[key y] rest IH]; [reflexivity|].
  cbn [get_member]. rewrite remove_member_cons.
  destruct (decide (key = name)); [discriminate|]. intros Hrest. now rewrite IH.
Qed.

Lemma remove_set_member name x members :
  get_member name members = None →
  remove_member name (set_member name x members) = members.
Proof.
  intros Hnone. unfold set_member. rewrite Hnone.
  assert (∀ l, get_member name l = None →
               remove_member name ((name, x) :: l) = l) as Hfront.
  { intros l Hl. rewrite remove_member_cons, decide_True by reflexivity.
    now apply remove_member_absent. }
  destruct (array_index name) as [i|].
  - induction members as [|[key y] rest IH]; cbn [insert_index].
    + now apply Hfront.
    + destruct (array_index key) as [j|]; [|now apply Hfront].
      destruct (decide (j < i)); [|now apply Hfront].
      cbn [get_member] in Hnone.
      destruct (decide (key = name)) as [|Hkey]; [discriminate|].
      rewrite remove_member_cons, decide_False by exact Hkey.
      f_equal. now apply IH.
  - clear Hfront. induction members as [|[key y] rest IH]; cbn [app].
    + now rewrite remove_member_cons, decide_True.
    + cbn [get_member] in Hnone.
      destruct (decide (key = name)) as [|Hkey]; [discriminate|].
      rewrite remove_member_cons, decide_False by exact Hkey.
      f_equal. now apply IH.
Qed.

Lemma remove_member_sublist name members :
  remove_member name members `sublist_of` members.
Proof. apply sublist_filter. Qed.

Lemma json_wf_object members :
  NoDup members.*1 → (∀ key data, (key, data) ∈ members → json_wf data = true) →
  json_wf (JObject members) = true.
Proof.
  intros Hkeys Hall. cbn [json_wf]. apply andb_true_intro. split.
  - now apply bool_decide_eq_true.
  - apply Is_true_true_1, forallb_True, list.Forall_forall.
    intros [key data] Hin. apply Is_true_true_2. eauto.
Qed.

Lemma indexed_keys_NoDup {A B} (f : nat → A → B) (l : list A) :
  NoDup (imap (λ i x, (pretty i, f i x)) l).*1.
Proof.
  rewrite fmap_imap.
  rewrite (imap_ext _ (λ i _, pretty i)) by reflexivity.
  rewrite imap_seq_0. apply NoDup_fmap_2; [apply _|apply NoDup_seq].
Qed.

(** The own enumerable properties of a value of the runtime. *)
Lemma Object_entries_wf data :
  json_wf data = true →
  NoDup (default [] (Object_entries data)).*1 ∧
  ∀ key x, (key, x) ∈ default [] (Object_entries data) → json_wf x = true.
Proof.
  intros Hwf. destruct data as [|b|q|s|elements|members]; cbn [Object_entries default].
  - split; [constructor|]. intros key x []%elem_of_nil.
  - split; [constructor|]. intros key x []%elem_of_nil.
  - split; [constructor|]. intros key x []%elem_of_nil.
  - split; [apply indexed_keys_NoDup|].
    intros key x (i & c & Heq & _)%elem_of_lookup_imap. now simplify_eq.
  - split; [apply (indexed_keys_NoDup (λ _ x, x))|].
    intros key x (i & y & Heq & Hy)%elem_of_lookup_imap. simplify_eq.
    cbn [json_wf] in Hwf. apply Is_true_true_2, forallb_True in Hwf.
    rewrite list.Forall_forall in Hwf. apply Is_true_true_1, Hwf.
    eapply list_elem_of_lookup_2, Hy.
  - now apply json_wf_members.
Qed.

Lemma set_member_wf name x members :
  json_wf x = true → json_wf (JObject members) = true →
  json_wf (JObject (set_member name x members)) = true.
Proof.
  intros Hx [Hkeys Hall]%json_wf_members. apply json_wf_object.
  - now apply set_member_NoDup.
  - intros key data [->|Hin]%set_member_elem_of; eauto.
Qed.

Lemma remove_member_wf name members :
  json_wf (JObject members) = true →
  json_wf (JObject (remove_member name members)) = true.
Proof.
  intros [Hkeys Hall]%json_wf_members. apply json_wf_object.
  - eapply sublist_NoDup; [exact Hkeys|].
    apply fmap_sublist, remove_member_sublist.
  - intros key data Hin. apply (Hall key).
    eapply elem_of_sublist; [exact Hin|apply remove_member_sublist].
Qed.

Lemma scenario_snapshot_wf data now :
  json_wf data = true → json_wf (scenario_snapshot data now) = true.
Proof.
  intros [Hkeys Hall]%Object_entries_wf. unfold scenario_snapshot.
  apply set_member_wf; [reflexivity|]. now apply json_wf_object.
Qed.

Lemma or_null_JNull value : or_null value = JNull ↔ is_truthy value = false.
Proof.
  unfold or_null. destruct (is_truthy value) eqn:E; [|tauto].
  split; [|discriminate]. destruct value as [v|]; [|discriminate].
  cbn in *. intros ->. discriminate.
Qed.

Lemma or_null_truthy value :
  or_null value ≠ JNull →
  or_null value = default JNull value ∧ is_truthy value = true.
Proof.
  unfold or_null. destruct (is_truthy value); [tauto|congruence].
Qed.

(** ** What is saved for a scenario *)

(** X23.  What is saved for a scenario carries [createdAt], the time of the
    save, also when the data has a [createdAt] of its own; the other fields
    of data that is an object are kept. *)
Theorem scenario_snapshot_fields (data : json) (now : string) :
  own_property (scenario_snapshot data now) "createdAt" = Some (JString now) ∧
  (∀ members field, data = JObject members → field ≠ "createdAt" →
     own_property (scenario_snapshot data now) field = get_member field members).
Proof.
  unfold scenario_snapshot. cbn [own_property]. split.
  - rewrite get_member_set_member. now rewrite decide_True.
  - intros members field -> Hfield. cbn [Object_entries default].
    rewrite get_member_set_member. now rewrite decide_False.
Qed.

(** ** Scenarios in storage *)

Section scenario_storage.
Import Storage ScenarioStorage.
Context `{JSON}.

Lemma getAllScenarios_wf store : json_wf (getAllScenarios store) = true.
Proof. now apply loadFromStorage_wf. Qed.

Lemma getAllScenarios_saved collection store :
  json_wf collection = true →
  getAllScenarios (snd (saveToStorage SCENARIOS collection store)) = collection.
Proof.
  intros Hwf. apply (loadFromStorage_saved _ _ 0); [exact Hwf|].
  unfold saveToStorage, setItem. cbn [snd]. apply lookup_insert_eq.
Qed.

Lemma loadScenario_object name members store :
  getAllScenarios store = JObject members →
  loadScenario name store = or_null (get_member name members).
Proof.
  unfold getAllScenarios, loadScenario. now intros ->.
Qed.

Lemma saveScenario_object name data now members store :
  getAllScenarios store = JObject members →
  saveScenario name data now store
  = saveToStorage SCENARIOS
      (JObject (set_member name (scenario_snapshot data now) members)) store.
Proof.
  unfold getAllScenarios, saveScenario. now intros ->.
Qed.

Lemma deleteScenario_object name members store :
  getAllScenarios store = JObject members →
  deleteScenario name store
  = if is_truthy (get_member name members)
    then saveToStorage SCENARIOS (JObject (remove_member name members)) store
    else (false, store).
Proof.
  unfold getAllScenarios, deleteScenario. intros ->.
  cbn [get_property own_property delete_property].
  now destruct (is_truthy _).
Qed.

(** X24.  With a collection of scenarios that is an object (or not stored yet),
    [saveScenario] succeeds, [loadScenario] of the name then gives the data
    with its [createdAt], the other scenarios load as before, and the other
    storage keys are untouched.  The name is not a name of
    [Object.prototype]. *)
Theorem saved_scenario_is_loaded name data now members store :
  name ∉ Object_prototype →
  json_wf data = true →
  getAllScenarios store = JObject members →
  fst (saveScenario name data now store) = true ∧
  loadScenario name (snd (saveScenario name data now store))
    = scenario_snapshot data now ∧
  (∀ other, other ≠ name →
     loadScenario other (snd (saveScenario name data now store))
     = loadScenario other store) ∧
  (∀ key, key ≠ SCENARIOS →
     snd (saveScenario name data now store) !! key = store !! key).
Proof.
  intros _ Hdata Hmembers.
  pose proof (getAllScenarios_wf store) as Hwf. rewrite Hmembers in Hwf.
  assert (getAllScenarios (snd (saveScenario name data now store))
          = JObject (set_member name (scenario_snapshot data now) members))
    as Hsaved.
  { rewrite (saveScenario_object _ _ _ _ _ Hmembers).
    apply getAllScenarios_saved, set_member_wf; [|exact Hwf].
    now apply scenario_snapshot_wf. }
  rewrite (saveScenario_object _ _ _ _ _ Hmembers) in *.
  split; [reflexivity|]. split; [|split].
  - rewrite (loadScenario_object _ _ _ Hsaved), get_member_set_member.
    now rewrite decide_True.
  - intros other Hother.
    rewrite (loadScenario_object _ _ _ Hsaved), (loadScenario_object _ _ _ Hmembers).
    rewrite get_member_set_member. now rewrite decide_False.
  - intros key Hkey. unfold saveToStorage, setItem. cbn [snd].
    now rewrite lookup_insert_ne.
Qed.

(** X25.  With a collection that is an object, [deleteScenario] answers
    [false] and leaves the storage as it is when [loadScenario] finds nothing
    under the name; otherwise it answers [true], the name then loads as
    [null], the other scenarios load as before, and the other storage keys
    are untouched. *)
Theorem deleteScenario_cases name members store :
  name ∉ Object_prototype →
  getAllScenarios store = JObject members →
  (loadScenario name store = JNull → deleteScenario name store = (false, store)) ∧
  (loadScenario name store ≠ JNull →
     fst (deleteScenario name store) = true ∧
     loadScenario name (snd (deleteScenario name store)) = JNull ∧
     (∀ other, other ≠ name →
        loadScenario other (snd (deleteScenario name store))
        = loadScenario other store) ∧
     (∀ key, key ≠ SCENARIOS →
        snd (deleteScenario name store) !! key = store !! key)).
Proof.
  intros _ Hmembers.
  pose proof (getAllScenarios_wf store) as Hwf. rewrite Hmembers in Hwf.
  rewrite (deleteScenario_object _ _ _ Hmembers), (loadScenario_object _ _ _ Hmembers).
  split.
  - intros Hnull%or_null_JNull. now rewrite Hnull.
  - intros [_ Htruthy]%or_null_truthy. rewrite Htruthy.
    assert (getAllScenarios
              (snd (saveToStorage SCENARIOS (JObject (remove_member name members)) store))
            = JObject (remove_member name members)) as Hsaved
      by now apply getAllScenarios_saved, remove_member_wf.
    split; [reflexivity|]. split; [|split].
    + rewrite (loadScenario_object _ _ _ Hsaved), get_member_remove.
      now rewrite decide_True.
    + intros other Hother.
      rewrite (loadScenario_object _ _ _ Hsaved), (loadScenario_object _ _ _ Hmembers).
      rewrite get_member_remove. now rewrite decide_False.
    + intros key Hkey. unfold saveToStorage, setItem. cbn [snd].
      now rewrite lookup_insert_ne.
Qed.

(** X26.  Saving a scenario under a name that the collection does not hold and
    deleting it again gives back the collection there was. *)
Theorem deleting_the_scenario_just_saved name data now members store :
  name ∉ Object_prototype →
  json_wf data = true →
  getAllScenarios store = JObject members →
  name ∉ members.*1 →
  fst (deleteScenario name (snd (saveScenario name data now store))) = true ∧
  getAllScenarios (snd (deleteScenario name (snd (saveScenario name data now store))))
    = getAllScenarios store.
Proof.
  intros _ Hdata Hmembers Habsent.
  pose proof (getAllScenarios_wf store) as Hwf. rewrite Hmembers in Hwf.
  assert (getAllScenarios (snd (saveScenario name data now store))
          = JObject (set_member name (scenario_snapshot data now) members))
    as Hsaved.
  { rewrite (saveScenario_object _ _ _ _ _ Hmembers).
    apply getAllScenarios_saved, set_member_wf; [|exact Hwf].
    now apply scenario_snapshot_wf. }
  rewrite (deleteScenario_object _ _ _ Hsaved), get_member_set_member.
  rewrite decide_True by reflexivity. cbn [is_truthy truthy_value scenario_snapshot].
  split; [reflexivity|].
  rewrite remove_set_member by now apply get_member_None.
  rewrite Hmembers. now apply getAllScenarios_saved.
Qed.

End scenario_storage.

(** The first scenario of Test 2 of the storage tests, saved on top of
    [test_store]. *)
Definition test_scenario : json :=
  JObject [("costAnalysis", JObject [("total", JNumber (Q2Qc 500))]);
           ("pricingStrategy", JObject [("selectedStrategy", JString "cost-plus")])].

Definition test_time : string := "2025-01-01T00:00:00.000Z".

Definition test_scenario_store : gmap string string :=
  snd (ScenarioStorage.saveScenario (H := reference_JSON)
         "Basic Strategy" test_scenario test_time test_store).

Lemma test_scenario_store_scenarios :
  ScenarioStorage.getAllScenarios (H := reference_JSON) test_scenario_store
  = JObject [("Basic Strategy", scenario_snapshot test_scenario test_time)].
Proof.
  unfold test_scenario_store.
  rewrite (saveScenario_object (H := reference_JSON) _ _ _ [] test_store)
    by reflexivity.
  now apply getAllScenarios_saved.
Qed.

Lemma saved_scenario_is_loaded_witness :
  ScenarioStorage.loadScenario (H := reference_JSON) "Basic Strategy"
    test_scenario_store
  = scenario_snapshot test_scenario test_time.
Proof.
  apply (saved_scenario_is_loaded (H := reference_JSON)
           "Basic Strategy" test_scenario test_time [] test_store).
  - apply (bool_decide_unpack _). vm_compute. exact I.
  - reflexivity.
  - reflexivity.
Defined.

Lemma deleteScenario_cases_witness :
  ScenarioStorage.deleteScenario (H := reference_JSON) "Premium Strategy"
    test_scenario_store = (false, test_scenario_store) ∧
  fst (ScenarioStorage.deleteScenario (H := reference_JSON) "Basic Strategy"
         test_scenario_store) = true ∧
  ScenarioStorage.loadScenario (H := reference_JSON) "Basic Strategy"
    (snd (ScenarioStorage.deleteScenario (H := reference_JSON) "Basic Strategy"
            test_scenario_store)) = JNull.
Proof.
  split.
  - apply (proj1 (deleteScenario_cases (H := reference_JSON)
                    "Premium Strategy" _ test_scenario_store
                    ltac:(apply (bool_decide_unpack _); vm_compute; exact I)
                    test_scenario_store_scenarios)).
    now rewrite (loadScenario_object _ _ _ test_scenario_store_scenarios).
  - destruct (proj2 (deleteScenario_cases (H := reference_JSON)
                       "Basic Strategy" _ test_scenario_store
                       ltac:(apply (bool_decide_unpack _); vm_compute; exact I)
                       test_scenario_store_scenarios))
      as (Hdone & Hgone & _).
    + now rewrite (loadScenario_object _ _ _ test_scenario_store_scenarios).
    + now split.
Defined.

Lemma deleting_the_scenario_just_saved_witness :
  ScenarioStorage.getAllScenarios (H := reference_JSON)
    (snd (ScenarioStorage.deleteScenario (H := reference_JSON) "Basic Strategy"
            test_scenario_store))
  = ScenarioStorage.getAllScenarios (H := reference_JSON) test_store.
Proof.
  apply (deleting_the_scenario_just_saved (H := reference_JSON)
           "Basic Strategy" test_scenario test_time [] test_store).
  - apply (bool_decide_unpack _). vm_compute. exact I.
  - reflexivity.
  - reflexivity.
  - apply not_elem_of_nil.
Defined.

Lemma or_null_falsy value :
  truthy_value (or_null value) = false ↔ or_null value = JNull.
Proof.
  unfold or_null. destruct (is_truthy value) eqn:E; [|tauto].
  destruct value as [v|]; [|discriminate]. cbn in *. rewrite E.
  split; [discriminate|]. intros ->. discriminate.
Qed.

(** ** ScenarioModel *)

Section scenario_model.
Import ScenarioModel.

(** X27.  [saveScenario] of the ScenarioModel succeeds; [getScenario] of the
    name then gives the data with its [createdAt], replacing what the name
    held, and the other names give what they gave. *)
Theorem scenario_model_save name data now this :
  name ∉ Object_prototype →
  fst (saveScenario name data now this) = true ∧
  getScenario name (snd (saveScenario name data now this))
    = scenario_snapshot data now ∧
  (∀ other, other ≠ name →
     getScenario other (snd (saveScenario name data now this))
     = getScenario other this).
Proof.
  intros _. split; [reflexivity|]. unfold getScenario, saveScenario. cbn [snd scenarios].
  split.
  - rewrite get_member_set_member. now rewrite decide_True.
  - intros other Hother. rewrite get_member_set_member. now rewrite decide_False.
Qed.

(** X28.  [deleteScenario] of the ScenarioModel answers [false] and changes
    nothing when [getScenario] finds nothing under the name; otherwise it
    answers [true], the name is gone, and the other names give what they
    gave. *)
Theorem scenario_model_delete name this :
  name ∉ Object_prototype →
  (getScenario name this = JNull → deleteScenario name this = (false, this)) ∧
  (getScenario name this ≠ JNull →
     fst (deleteScenario name this) = true ∧
     getScenario name (snd (deleteScenario name this)) = JNull ∧
     (name ∉ (scenarios (snd (deleteScenario name this))).*1) ∧
     (∀ other, other ≠ name →
        getScenario other (snd (deleteScenario name this))
        = getScenario other this)).
Proof.
  intros _. unfold getScenario, deleteScenario. split.
  - intros Hnull%or_null_JNull. now rewrite Hnull.
  - intros [_ Htruthy]%or_null_truthy. rewrite Htruthy. cbn [fst snd scenarios].
    split; [reflexivity|]. split; [|split].
    + rewrite get_member_remove. now rewrite decide_True.
    + apply get_member_None. rewrite get_member_remove. now rewrite decide_True.
    + intros other Hother. rewrite get_member_remove. now rewrite decide_False.
Qed.

(** X29.  Saving a scenario under a new name and deleting it again gives back
    the model there was. *)
Theorem scenario_model_save_then_delete name data now this :
  name ∉ Object_prototype →
  name ∉ (scenarios this).*1 →
  deleteScenario name (snd (saveScenario name data now this)) = (true, this).
Proof.
  intros _ Habsent. unfold deleteScenario, saveScenario. cbn [snd scenarios].
  rewrite get_member_set_member. rewrite decide_True by reflexivity.
  cbn [is_truthy truthy_value scenario_snapshot].
  rewrite remove_set_member by now apply get_member_None.
  now destruct this.
Qed.

Context `{Coercion}.

Lemma subtract_numbers x y :
  subtract (JNumber x) (JNumber y) = Some (Fin (Qcanon.this x - Qcanon.this y)).
Proof. unfold subtract. now rewrite !ToNumber_number. Qed.

(** X30.  [compareScenarios] gives [null] exactly when one of the two names
    holds no scenario.  Otherwise, when the optimal price and margin of both
    scenarios are numbers or are missing (a missing or falsy one counts as
    0), it returns the two names, the two prices with their difference
    first - second, and the two margins with theirs. *)
Theorem compareScenarios_cases scenario1Name scenario2Name this :
  scenario1Name ∉ Object_prototype →
  scenario2Name ∉ Object_prototype →
  (compareScenarios scenario1Name scenario2Name this = Some None ↔
   getScenario scenario1Name this = JNull ∨ getScenario scenario2Name this = JNull) ∧
  (∀ price1 price2 margin1 margin2,
     getScenario scenario1Name this ≠ JNull →
     getScenario scenario2Name this ≠ JNull →
     or_zero (optimal_field (getScenario scenario1Name this) "price") = JNumber price1 →
     or_zero (optimal_field (getScenario scenario2Name this) "price") = JNumber price2 →
     or_zero (optimal_field (getScenario scenario1Name this) "margin") = JNumber margin1 →
     or_zero (optimal_field (getScenario scenario2Name this) "margin") = JNumber margin2 →
     compareScenarios scenario1Name scenario2Name this
     = Some (Some {| names_scenario1 := scenario1Name;
                     names_scenario2 := scenario2Name;
                     prices_scenario1 := JNumber price1;
                     prices_scenario2 := JNumber price2;
                     prices_difference := Fin (Qcanon.this price1 - Qcanon.this price2);
                     margins_scenario1 := JNumber margin1;
                     margins_scenario2 := JNumber margin2;
                     margins_difference :=
                       Fin (Qcanon.this margin1 - Qcanon.this margin2) |})).
Proof.
  intros _ _. unfold compareScenarios.
  pose proof (or_null_falsy (get_member scenario1Name (scenarios this))) as H1.
  pose proof (or_null_falsy (get_member scenario2Name (scenarios this))) as H2.
  fold (getScenario scenario1Name this) in *.
  fold (getScenario scenario2Name this) in *.
  destruct (truthy_value (getScenario scenario1Name this)) eqn:E1;
    destruct (truthy_value (getScenario scenario2Name this)) eqn:E2;
    cbn [negb orb].
  - split.
    + split.
      * repeat (destruct (subtract _ _); cbn); intros; discriminate.
      * intros [Hnull|Hnull]; [apply H1 in Hnull|apply H2 in Hnull]; discriminate.
    + intros price1 price2 margin1 margin2 _ _ -> -> -> ->.
      now rewrite !subtract_numbers.
  - split; [split; [intros _; right; now apply H2|reflexivity]|].
    intros ? ? ? ? _ Hne. destruct Hne. now apply H2.
  - split; [split; [intros _; left; now apply H1|reflexivity]|].
    intros ? ? ? ? Hne. destruct Hne. now apply H1.
  - split; [split; [intros _; left; now apply H1|reflexivity]|].
    intros ? ? ? ? Hne. destruct Hne. now apply H1.
Qed.

End scenario_model.

(** The two scenarios of Test 10 of the model tests. *)
Definition basic_strategy : json :=
  JObject
    [("costAnalysis",
      JObject [("costBreakdown",
                JObject [("total", JNumber (Q2Qc 750)); ("direct", JNumber (Q2Qc 50));
                         ("time", JNumber (Q2Qc 600));
                         ("indirect", JNumber (Q2Qc 100))])]);
     ("pricingStrategy",
      JObject [("marketPosition", JString "mid-market");
               ("priceRecommendations",
                JObject [("optimal",
                          JObject [("price", JNumber (Q2Qc 1071.43));
                                   ("margin", JNumber (Q2Qc 0.30))])])])].

Definition premium_strategy : json :=
  JObject
    [("costAnalysis",
      JObject [("costBreakdown",
                JObject [("total", JNumber (Q2Qc 750)); ("direct", JNumber (Q2Qc 50));
                         ("time", JNumber (Q2Qc 600));
                         ("indirect", JNumber (Q2Qc 100))])]);
     ("pricingStrategy",
      JObject [("marketPosition", JString "premium");
               ("priceRecommendations",
                JObject [("optimal",
                          JObject [("price", JNumber (Q2Qc 1285.72));
                                   ("margin", JNumber (Q2Qc 0.42))])])])].

Definition test_scenarioModel : ScenarioModel.t :=
  snd (ScenarioModel.saveScenario "Premium Strategy" premium_strategy test_time
         (snd (ScenarioModel.saveScenario "Basic Strategy" basic_strategy test_time
                 ScenarioModel.new))).

(** A coercion for the examples: [ToNumber] on numbers, [null] and booleans.
    The examples subtract numbers only; the numeric reading of a string, an
    array or an object is not needed for them and is left as [NaN]. *)
Definition reference_Coercion : Coercion :=
  {| ToNumber := λ v,
       match v with
       | JNumber x => Some (Fin (Qcanon.this x))
       | JNull => Some (Fin 0)
       | JBool b => Some (Fin (if b then 1 else 0))
       | JString _ | JArray _ | JObject _ => Some NaN
       end;
     ToNumber_number := λ _, eq_refl |}.

Lemma scenario_snapshot_fields_witness :
  own_property (scenario_snapshot basic_strategy test_time) "createdAt"
    = Some (JString test_time) ∧
  own_property (scenario_snapshot basic_strategy test_time) "pricingStrategy"
    = own_property basic_strategy "pricingStrategy".
Proof.
  split.
  - apply (proj1 (scenario_snapshot_fields basic_strategy test_time)).
  - eapply (proj2 (scenario_snapshot_fields basic_strategy test_time)).
    + reflexivity.
    + discriminate.
Defined.

Lemma scenario_model_save_witness :
  ScenarioModel.getScenario "Basic Strategy" test_scenarioModel
  = scenario_snapshot basic_strategy test_time.
Proof.
  etransitivity.
  - apply (proj2 (proj2 (scenario_model_save "Premium Strategy" premium_strategy
                           test_time _
                           ltac:(apply (bool_decide_unpack _); vm_compute; exact I)))).
    discriminate.
  - apply (scenario_model_save "Basic Strategy" basic_strategy test_time
             ScenarioModel.new).
    apply (bool_decide_unpack _). vm_compute. exact I.
Defined.

Lemma scenario_model_delete_witness :
  ScenarioModel.deleteScenario "Enterprise" test_scenarioModel
    = (false, test_scenarioModel) ∧
  fst (ScenarioModel.deleteScenario "Basic Strategy" test_scenarioModel) = true ∧
  ScenarioModel.getScenario "Basic Strategy"
    (snd (ScenarioModel.deleteScenario "Basic Strategy" test_scenarioModel))
  = JNull.
Proof.
  split.
  - apply (proj1 (scenario_model_delete "Enterprise" test_scenarioModel
                    ltac:(apply (bool_decide_unpack _); vm_compute; exact I))).
    reflexivity.
  - destruct (proj2 (scenario_model_delete "Basic Strategy" test_scenarioModel
                       ltac:(apply (bool_decide_unpack _); vm_compute; exact I)))
      as (Hdone & Hgone & _).
    + discriminate.
    + now split.
Defined.

Lemma scenario_model_save_then_delete_witness :
  ScenarioModel.deleteScenario "Basic Strategy"
    (snd (ScenarioModel.saveScenario "Basic Strategy" basic_strategy test_time
            ScenarioModel.new))
  = (true, ScenarioModel.new).
Proof.
  apply (scenario_model_save_then_delete "Basic Strategy" basic_strategy test_time
           ScenarioModel.new).
  - apply (bool_decide_unpack _). vm_compute. exact I.
  - apply not_elem_of_nil.
Defined.

Lemma compareScenarios_cases_witness :
  ScenarioModel.compareScenarios (H := reference_Coercion)
    "Basic Strategy" "Enterprise" test_scenarioModel = Some None ∧
  ∃ comparison,
    ScenarioModel.compareScenarios (H := reference_Coercion)
      "Basic Strategy" "Premium Strategy" test_scenarioModel
      = Some (Some comparison) ∧
    ScenarioModel.prices_difference comparison ≡ Fin (-214.29) ∧
    ScenarioModel.margins_difference comparison ≡ Fin (-0.12).
Proof.
  split.
  - apply (proj1 (compareScenarios_cases (H := reference_Coercion)
                    "Basic Strategy" "Enterprise" test_scenarioModel
                    ltac:(apply (bool_decide_unpack _); vm_compute; exact I)
                    ltac:(apply (bool_decide_unpack _); vm_compute; exact I))).
    right. reflexivity.
  - eexists. split.
    + apply (proj2 (compareScenarios_cases (H := reference_Coercion)
                      "Basic Strategy" "Premium Strategy" test_scenarioModel
                      ltac:(apply (bool_decide_unpack _); vm_compute; exact I)
                      ltac:(apply (bool_decide_unpack _); vm_compute; exact I))
               (Q2Qc 1071.43) (Q2Qc 1285.72) (Q2Qc 0.30) (Q2Qc 0.42));
        first [discriminate | reflexivity].
    + split; reflexivity.
Defined.
